(** * ComfyUI-LM-Remote: the remote lora node shims

    A shallow embedding of the three front-end shims

      - web/comfyui/lora_loader_remote.js   (LoraManager.LoraLoaderRemote)
      - web/comfyui/lora_stacker_remote.js  (LoraManager.LoraStackerRemote)
      - web/comfyui/wanvideo_remote.js      (LoraManager.WanVideoLoraSelectRemote)

    A node is a record holding what the closures created by [onNodeCreated]
    read and write: the two widgets, the two re-entrancy flags, the debounce
    timer, and a trace of the calls made to collaborators.  The helpers the
    shims import from the Lora Manager extension (mergeLoras,
    collectActiveLorasFromChain, applyLoraValuesToText, getNodeFromGraph, ...)
    are not part of this repository: they are parameters of the embedding, or
    are modelled from the specification where a property depends on what
    they compute. *)

From Stdlib Require Import QArith.
From stdpp Require Import gmap strings list.

(** ** JavaScript strings

    A JavaScript string is a sequence of UTF-16 code units. *)

Definition jsstring := list N.

(** The code units of an ASCII literal. *)
Definition js (s : string) : jsstring :=
  map Ascii.N_of_ascii (String.list_ascii_of_string s).

(** WhiteSpace and LineTerminator code points of ECMAScript, the ones
    [String.prototype.trim] strips. *)
Definition isWhiteSpace (c : N) : bool :=
  ((9 <=? c) && (c <=? 13)      (* TAB LF VT FF CR *)
   || (c =? 32)                 (* SPACE *)
   || (c =? 160)                (* NO-BREAK SPACE *)
   || (c =? 5760)               (* U+1680 *)
   || ((8192 <=? c) && (c <=? 8202))   (* U+2000 .. U+200A *)
   || (c =? 8232) || (c =? 8233)       (* U+2028 U+2029 *)
   || (c =? 8239)               (* U+202F *)
   || (c =? 8287)               (* U+205F *)
   || (c =? 12288)              (* U+3000 *)
   || (c =? 65279))%N.          (* U+FEFF *)

Fixpoint trimStart (s : jsstring) : jsstring :=
  match s with
  | [] => []
  | c :: s' => if isWhiteSpace c then trimStart s' else s
  end.

Definition trimEnd (s : jsstring) : jsstring := rev (trimStart (rev s)).

Definition trim (s : jsstring) : jsstring := trimEnd (trimStart s).

(** Truthiness of a string: non-empty. *)
Definition truthy (s : jsstring) : bool :=
  match s with [] => false | _ :: _ => true end.

(** ** Data model *)

(** An entry of the structured list of a loras widget.  The strength is a
    number that the shims only carry around, never compute with. *)
Record LoraEntry := mkLora {
  name : jsstring;
  strength : Q;
  active : bool
}.

(** The three shims; each installs its own closures in [onNodeCreated]. *)
Inductive Shim := LoaderShim | StackerShim | WanVideoShim.

Definition LORA_LOADER : string := "Lora Loader (Remote, LoraManager)".
Definition LORA_STACKER : string := "Lora Stacker (Remote, LoraManager)".
Definition WANVIDEO_LORA_SELECT : string := "WanVideo Lora Select (Remote, LoraManager)".

(** [beforeRegisterNodeDef]: which shim hooks [onNodeCreated] of a class. *)
Definition shim_of_class (c : string) : option Shim :=
  if String.eqb c LORA_LOADER then Some LoaderShim
  else if String.eqb c LORA_STACKER then Some StackerShim
  else if String.eqb c WANVIDEO_LORA_SELECT then Some WanVideoShim
  else None.

(** The text widget: [value] is [None] when undefined; [callback] tells
    whose closure is installed, if any. *)
Record InputWidget := mkInput {
  value : option jsstring;
  callback : option Shim
}.

(** An assignment to a widget value. *)
Inductive Write :=
| WriteInput (text : jsstring)            (* inputWidget.value = text *)
| WriteLoras (entries : list LoraEntry).  (* this.lorasWidget.value = entries *)

(** What a closure does to the outside, in the order it does it. *)
Inductive Effect :=
| Assigned (w : Write)
| UpdateConnectedTriggerWords (names : gset jsstring)
| UpdateDownstreamLoaders.

(** A node.  [lorasValue] is [this.lorasWidget.value] ([None] when
    undefined); [onNodeCreated] creates the loras widget before it installs
    either callback, so the closures always find it.  [mode] is [None] when
    undefined.  [timer] is the pending call of the debounced function. *)
Record Node := mkNode {
  comfyClass : string;
  mode : option Z;
  inputWidget : option InputWidget;
  lorasValue : option (list LoraEntry);
  isUpdating : bool;
  isSyncingInput : bool;
  timer : option (list LoraEntry);
  trace : list Effect
}.

Definition set_isUpdating (b : bool) (n : Node) : Node :=
  mkNode (comfyClass n) (mode n) (inputWidget n) (lorasValue n)
         b (isSyncingInput n) (timer n) (trace n).

Definition set_isSyncingInput (b : bool) (n : Node) : Node :=
  mkNode (comfyClass n) (mode n) (inputWidget n) (lorasValue n)
         (isUpdating n) b (timer n) (trace n).

Definition set_timer (t : option (list LoraEntry)) (n : Node) : Node :=
  mkNode (comfyClass n) (mode n) (inputWidget n) (lorasValue n)
         (isUpdating n) (isSyncingInput n) t (trace n).

Definition set_lorasValue (l : list LoraEntry) (n : Node) : Node :=
  mkNode (comfyClass n) (mode n) (inputWidget n) (Some l)
         (isUpdating n) (isSyncingInput n) (timer n) (trace n).

Definition set_inputValue (s : jsstring) (n : Node) : Node :=
  mkNode (comfyClass n) (mode n)
         (match inputWidget n with
          | Some w => Some (mkInput (Some s) (callback w))
          | None => None
          end)
         (lorasValue n) (isUpdating n) (isSyncingInput n) (timer n) (trace n).

Definition log (e : Effect) (n : Node) : Node :=
  mkNode (comfyClass n) (mode n) (inputWidget n) (lorasValue n)
         (isUpdating n) (isSyncingInput n) (timer n) (trace n ++ [e]).

(** [inputWidget.value], as the closures read it. *)
Definition inputValue (n : Node) : option jsstring :=
  match inputWidget n with Some w => value w | None => None end.

Definition store (w : Write) (n : Node) : Node :=
  match w with
  | WriteInput s => set_inputValue s n
  | WriteLoras l => set_lorasValue l n
  end.

(** The graph: every node of the root graph and of its subgraphs. *)
Definition Graph := list Node.

(** [this.mode === undefined || this.mode === 0 || this.mode === 3] *)
Definition isNodeActive (n : Node) : bool :=
  match mode n with
  | None => true
  | Some m => (m =? 0)%Z || (m =? 3)%Z
  end.

(** [value.forEach((lora) => { if (lora.active) activeLoraNames.add(lora.name); })]
    on a fresh [Set]. *)
Definition activeNames (entries : list LoraEntry) : gset jsstring :=
  foldl (fun s lora => if active lora then s ∪ {[ name lora ]} else s) ∅ entries.

(** ** Helpers of the Lora Manager extension, from the specification

    The shims import these from /extensions/ComfyUI-Lora-Manager/; the
    embedding of the shims takes them as parameters, and the definitions
    below are what the parameters are instantiated with where a property
    depends on what the helper computes. *)

Definition find_entry (nm : jsstring) (l : list LoraEntry) : option LoraEntry :=
  List.find (fun e => bool_decide (name e = nm)) l.

(** Modelled from the spec: LoraEntryCodec.merge (the source of mergeLoras is
    missing).  Union by name: an entry present in both keeps the current
    entry's [active] flag and adopts the incoming strength; entries only in
    the current list are kept unchanged; entries only in the incoming list
    are appended at the end with [active = true]. *)
Definition merge (incomingEntries currentEntries : list LoraEntry) : list LoraEntry :=
  map (fun c => match find_entry (name c) incomingEntries with
                | Some i => mkLora (name c) (strength i) (active c)
                | None => c
                end) currentEntries
  ++ map (fun i => mkLora (name i) (strength i) true)
         (List.filter (fun i => bool_decide (find_entry (name i) currentEntries = None))
                      incomingEntries).

(** Modelled from the spec: mergeLoras(text, entries) decodes the text with
    LoraEntryCodec.decode (missing as well, a parameter here) and merges the
    decoded entries into the current ones. *)
Definition spec_mergeLoras (decode : option jsstring → list LoraEntry)
    (text : option jsstring) (currentEntries : list LoraEntry) : list LoraEntry :=
  merge (decode text) currentEntries.

(** Modelled from the spec: getActiveLorasFromNode (its source is missing).
    Every entry of the node's own list with [active = true] contributes its
    name. *)
Definition spec_getActiveLorasFromNode (n : Node) : gset jsstring :=
  activeNames (default [] (lorasValue n)).

(** ** The lora_code_update event *)

(** A node id as it arrives in the event detail: a number (node ids are
    integers) or a string. *)
Inductive JsId :=
| IdNumber (z : Z)
| IdString (s : jsstring).

Module message.
(** [event.detail]; a field is [None] when it is undefined or null. *)
Record t := mk {
  node_id : option JsId;
  id : option JsId;
  graph_id : option jsstring;
  lora_code : option jsstring;
  mode : option jsstring
}.
End message.

(** A change notification the widget host may issue, synchronously, while
    one of its values is being assigned. *)
Inductive Call :=
| CallInput (v : option jsstring)   (* inputWidget.callback(v) *)
| CallLoras (v : list LoraEntry).   (* the callback given to addLorasWidget *)

Definition count_input_writes (t : list Effect) : nat :=
  length (List.filter (fun e => match e with Assigned (WriteInput _) => true | _ => false end) t).

(** ** The route table of the reverse proxy *)

Inductive Disposition := forward | localHandle.

Record RouteRule := mkRule {
  pathPattern : string;
  disposition : Disposition;
  broadcastEvent : option string
}.

(** The prefix of a pattern that ends in a star, [None] for a pattern that
    does not. *)
Fixpoint prefix_pattern (p : string) : option string :=
  match p with
  | EmptyString => None
  | String c EmptyString =>
      if Ascii.eqb c (Ascii.ascii_of_nat 42) then Some EmptyString else None
  | String c p' => option_map (String c) (prefix_pattern p')
  end.

Definition matches (pattern path : string) : bool :=
  match prefix_pattern pattern with
  | Some p => String.prefix p path
  | None => String.eqb pattern path
  end.

(** Modelled from the spec: routeRequest (the proxy middleware is not among
    the sources).  A linear scan of the ordered table; a pattern is a static
    prefix ([/static-assets/*]) or an exact path; the first rule that matches
    is the answer, and an unmatched path has none. *)
Definition routeRequest (table : list RouteRule) (path : string) : option RouteRule :=
  List.find (fun r => matches (pathPattern r) path) table.

Definition route_table_example : list RouteRule :=
  [ mkRule "/api/lm/loras/get_trigger_words" localHandle (Some "trigger_word_update");
    mkRule "/api/lm/*" forward None ].

(** ** Instances of the parameters, for concrete runs *)

(** A host that notifies both closures on every assignment. *)
Definition echo_host (w : Write) (n : Node) : list Call :=
  match w with
  | WriteInput s => [CallInput (Some s); CallLoras (default [] (lorasValue n))]
  | WriteLoras l => [CallLoras l; CallInput (inputValue n)]
  end.

(** A decoder that knows one token. *)
Definition decode_bar (text : option jsstring) : list LoraEntry :=
  if decide (text = Some (js "<lora:bar:0.8>"))
  then [mkLora (js "bar") (8 # 10) true]
  else [].

(** An encoder that writes the names of the entries, one token each. *)
Definition encode_names (text : option jsstring) (entries : list LoraEntry) : jsstring :=
  concat (map (fun e => js "<lora:" ++ name e ++ js ">") entries).

(** A chain of one node. *)
Definition collect_self (g : Graph) (n : Node) : gset jsstring :=
  spec_getActiveLorasFromNode n.

(** Every position of the graph, in order. *)
Definition all_positions (g : Graph) : list nat := seq 0 (length g).

(** Node ids that are the positions in the graph. *)
Definition node_at_id (g : Graph) (graphId : option jsstring) (nodeId : option Z) : option nat :=
  match nodeId with
  | Some z => if decide (0 ≤ z < Z.of_nat (length g))%Z then Some (Z.to_nat z) else None
  | None => None
  end.

Fixpoint decimal_digits (acc : Z) (s : jsstring) : option Z :=
  match s with
  | [] => Some acc
  | c :: s' =>
      if ((48 <=? c) && (c <=? 57))%N
      then decimal_digits (10 * acc + (Z.of_N c - 48))%Z s'
      else None
  end.

(** An instance of [Number] for the concrete runs: it is [Number(s)] on the
    signed decimal integer literals (below 2^53, where a double is exact).
    Other spellings of a number (a fraction part, an exponent, a radix
    prefix) are given [None] here, so it stands for [Number] on such
    literals only. *)
Definition Number_decimal (s : jsstring) : option Z :=
  match trim s with
  | [] => Some 0%Z
  | 45%N :: d :: r => option_map Z.opp (decimal_digits 0 (d :: r))
  | 43%N :: d :: r => decimal_digits 0 (d :: r)
  | s' => decimal_digits 0 s'
  end.

Definition sample_entries : list LoraEntry :=
  [ mkLora (js "foo") 1 false; mkLora (js "bar") (1 # 2) true ].

Definition sample_node (class : string) (s : option Shim) (text : string) : Node :=
  mkNode class None (Some (mkInput (Some (js text)) s)) (Some sample_entries)
         false false None [].

Definition sample_loader : Node := sample_node LORA_LOADER (Some LoaderShim) "foo".
Definition sample_stacker : Node := sample_node LORA_STACKER (Some StackerShim) "foo".
Definition sample_other : Node := sample_node "KSampler" None "foo".

Definition sample_busy : Node := set_isUpdating true sample_loader.
Definition sample_syncing : Node := set_isSyncingInput true sample_loader.
Definition sample_synced : Node :=
  sample_node LORA_LOADER (Some LoaderShim) "<lora:foo><lora:bar>".
Definition sample_bypassed : Node :=
  mkNode LORA_STACKER (Some 4%Z) (inputWidget sample_stacker)
         (Some sample_entries) false false None [].
Definition sample_blank : Node :=
  sample_node LORA_LOADER (Some LoaderShim) "  ".
Definition sample_padded : Node :=
  sample_node LORA_LOADER (Some LoaderShim) " foo  ".

Definition sample_graph : Graph :=
  [ sample_loader; sample_stacker; sample_other; sample_loader ].

Definition broadcast_message : message.t :=
  message.mk (Some (IdString (js "-1"))) None None (Some (js "<lora:bar:0.8>")) None.

Definition targeted_message (z : Z) : message.t :=
  message.mk (Some (IdNumber z)) None None (Some (js "<lora:bar:0.8>"))
             (Some (js "replace")).

(** ** The mode of a node, and the widget values of a saved workflow *)

Definition set_mode (v : option Z) (n : Node) : Node :=
  mkNode (comfyClass n) v (inputWidget n) (lorasValue n)
         (isUpdating n) (isSyncingInput n) (timer n) (trace n).

(** No closure of the node is running. *)
Definition idle (n : Node) : Prop :=
  isUpdating n = false ∧ isSyncingInput n = false.

(** What no closure changes of a node: its class, its mode, whether it has
    a text widget and which callback that has; and a node that was idle is
    idle again. *)
Definition same_frame (n n' : Node) : Prop :=
  comfyClass n' = comfyClass n
  ∧ mode n' = mode n
  ∧ callback <$> inputWidget n' = callback <$> inputWidget n
  ∧ (idle n → idle n').

(** The class each shim looks for. *)
Definition class_of_shim (s : Shim) : string :=
  match s with
  | LoaderShim => LORA_LOADER
  | StackerShim => LORA_STACKER
  | WanVideoShim => WANVIDEO_LORA_SELECT
  end.

(** A value of [node.widgets_values], the widget values a workflow file has
    for a node: the text, a flag (low_mem_load, merge_loras), the entries
    of the loras widget, or null. *)
Inductive Saved :=
| SavedText (s : jsstring)
| SavedFlag (b : bool)
| SavedLoras (l : list LoraEntry)
| SavedNull.

Definition saved_truthy (v : Saved) : bool :=
  match v with
  | SavedText s => truthy s
  | SavedFlag b => b
  | SavedLoras _ => true
  | SavedNull => false
  end.

(** [existingLoras] of [loadedGraphNode], for the slot [k] the shim reads:
    [[]] unless [widgets_values] is there and not empty, then
    [widgets_values[k] || []].  [None] when the slot holds a truthy value
    that is not a list of entries, which [mergeLoras] is not typed for. *)
Definition savedLoras (k : nat) (widgets_values : option (list Saved)) : option (list LoraEntry) :=
  match widgets_values with
  | Some (v :: vs) =>
      match (v :: vs) !! k with
      | Some (SavedLoras l) => Some l
      | Some other => if saved_truthy other then None else Some []
      | None => Some []
      end
  | _ => Some []
  end.

(** The slot of the loras widget: the loader and the stacker have the text
    and the loras; the WanVideo node has low_mem_load, merge_loras, the text
    and the loras. *)
Definition loras_slot (s : Shim) : nat :=
  match s with
  | LoaderShim => 1
  | StackerShim => 1
  | WanVideoShim => 3
  end.

(** A host that answers the assignment of the entries with the list
    change, as a widget that reports every change does. *)
Definition list_host (w : Write) (n : Node) : list Call :=
  match w with
  | WriteInput _ => []
  | WriteLoras l => [CallLoras l]
  end.

Definition sample_wanvideo : Node :=
  mkNode WANVIDEO_LORA_SELECT (Some 4%Z)
         (Some (mkInput (Some (js "foo")) (Some WanVideoShim)))
         (Some sample_entries) false false None [].

Definition sample_saved : option (list Saved) :=
  Some [ SavedText (js "foo"); SavedLoras [mkLora (js "baz") 1 false] ].

Definition sample_message : message.t :=
  message.mk (Some (IdString (js "1"))) (Some (IdNumber 0)) None
             (Some (js "<lora:bar:0.8>")) (Some (js "prepend")).

(** ** The shims *)

Section Shims.

(** Imported from /extensions/ComfyUI-Lora-Manager/utils.js and
    lora_syntax_utils.js. *)
Variable mergeLoras : option jsstring → list LoraEntry → list LoraEntry.
Variable collectActiveLorasFromChain : Graph → Node → gset jsstring.
Variable getActiveLorasFromNode : Node → gset jsstring.
Variable applyLoraValuesToText : option jsstring → list LoraEntry → jsstring.
(** The nodes of the graph, and the node of a graph with an id, as
    positions in the graph. *)
Variable getAllGraphNodes : Graph → list nat.
Variable getNodeFromGraph : Graph → option jsstring → option Z → option nat.
(** [Number(s)] where it is an integer, [None] where it is NaN or has a
    fraction. *)
Variable Number : jsstring → option Z.
(** The change notifications the widget host issues when a widget value
    is assigned. *)
Variable host : Write → Node → list Call.

Section Closures.

(** The graph the node lives in. *)
Variable g : Graph.
(** What the host does, synchronously, on an assignment. *)
Variable notify : Write → Node → Node.

(** [widget.value = v] *)
Definition assign (w : Write) (n : Node) : Node :=
  notify w (log (Assigned w) (store w n)).

(** Modelled from the spec: debounce (its source is missing), trailing
    edge: a call replaces the pending one, at most one is pending. *)
Definition scheduleInputSync (lorasValue : list LoraEntry) (n : Node) : Node :=
  set_timer (Some lorasValue) n.

(** The function given to [debounce]; the three shims have the same.
    Without the text widget the read of [inputWidget.value] raises: nothing
    is encoded and nothing is assigned, the [finally] block clears the two
    flags, and the error leaves the closure. *)
Definition inputSync (lorasValue : list LoraEntry) (n : Node) : Node :=
  if isSyncingInput n then n else
  let n := set_isSyncingInput true n in
  let n := set_isUpdating true n in
  let n :=
    match inputWidget n with
    | None => n
    | Some inputWidget0 =>
        let nextText := applyLoraValuesToText (value inputWidget0) lorasValue in
        if decide (value inputWidget0 = Some nextText) then n
        else assign (WriteInput nextText) n
    end in
  let n := set_isUpdating false n in
  set_isSyncingInput false n.

(** lora_loader_remote.js, the callback given to [addLorasWidget] *)
Definition loader_lorasCallback (value : list LoraEntry) (n : Node) : Node :=
  if isUpdating n then n else
  let n := set_isUpdating true n in
  let allActiveLoraNames := collectActiveLorasFromChain g n in
  let n := log (UpdateConnectedTriggerWords allActiveLoraNames) n in
  let n := set_isUpdating false n in
  scheduleInputSync value n.

(** lora_loader_remote.js, [inputWidget.callback] *)
Definition loader_inputCallback (value : option jsstring) (n : Node) : Node :=
  if isUpdating n then n else
  let n := set_isUpdating true n in
  let currentLoras := default [] (lorasValue n) in
  let mergedLoras := mergeLoras value currentLoras in
  let n := assign (WriteLoras mergedLoras) n in
  let allActiveLoraNames := collectActiveLorasFromChain g n in
  let n := log (UpdateConnectedTriggerWords allActiveLoraNames) n in
  set_isUpdating false n.

(** lora_stacker_remote.js, the callback given to [addLorasWidget] *)
Definition stacker_lorasCallback (value : list LoraEntry) (n : Node) : Node :=
  if isUpdating n then n else
  let n := set_isUpdating true n in
  let activeLoraNames := if isNodeActive n then activeNames value else ∅ in
  let n := log (UpdateConnectedTriggerWords activeLoraNames) n in
  let n := log UpdateDownstreamLoaders n in
  let n := set_isUpdating false n in
  scheduleInputSync value n.

(** lora_stacker_remote.js, [inputWidget.callback].  The loras widget
    exists when the callback does, so [this.lorasWidget?.value] is its value
    and the test [if (this.lorasWidget)] passes. *)
Definition stacker_inputCallback (value : option jsstring) (n : Node) : Node :=
  if isUpdating n then n else
  let n := set_isUpdating true n in
  let currentLoras := default [] (lorasValue n) in
  let mergedLoras := mergeLoras value currentLoras in
  let n := assign (WriteLoras mergedLoras) n in
  let activeLoraNames :=
    if isNodeActive n then getActiveLorasFromNode n else ∅ in
  let n := log (UpdateConnectedTriggerWords activeLoraNames) n in
  let n := log UpdateDownstreamLoaders n in
  set_isUpdating false n.

(** wanvideo_remote.js, the callback given to [addLorasWidget] *)
Definition wanvideo_lorasCallback (value : list LoraEntry) (n : Node) : Node :=
  if isUpdating n then n else
  let n := set_isUpdating true n in
  let activeLoraNames := activeNames value in
  let n := log (UpdateConnectedTriggerWords activeLoraNames) n in
  let n := set_isUpdating false n in
  scheduleInputSync value n.

(** wanvideo_remote.js, [inputWidget.callback]; the loras widget as in the
    stacker. *)
Definition wanvideo_inputCallback (value : option jsstring) (n : Node) : Node :=
  if isUpdating n then n else
  let n := set_isUpdating true n in
  let currentLoras := default [] (lorasValue n) in
  let mergedLoras := mergeLoras value currentLoras in
  let n := assign (WriteLoras mergedLoras) n in
  let activeLoraNames := getActiveLorasFromNode n in
  let n := log (UpdateConnectedTriggerWords activeLoraNames) n in
  set_isUpdating false n.

Definition inputCallback (s : Shim) : option jsstring → Node → Node :=
  match s with
  | LoaderShim => loader_inputCallback
  | StackerShim => stacker_inputCallback
  | WanVideoShim => wanvideo_inputCallback
  end.

Definition lorasCallback (s : Shim) : list LoraEntry → Node → Node :=
  match s with
  | LoaderShim => loader_lorasCallback
  | StackerShim => stacker_lorasCallback
  | WanVideoShim => wanvideo_lorasCallback
  end.

(** The timer of the debounced function expires. *)
Definition fireInputSync (n : Node) : Node :=
  match timer n with
  | Some lorasValue => inputSync lorasValue (set_timer None n)
  | None => n
  end.

(** One notification of the host reaches the closure it names. *)
Definition handle (c : Call) (n : Node) : Node :=
  match c with
  | CallInput v =>
      match inputWidget n with
      | Some w =>
          match callback w with
          | Some s => inputCallback s v n
          | None => n
          end
      | None => n
      end
  | CallLoras v =>
      match shim_of_class (comfyClass n) with
      | Some s => lorasCallback s v n
      | None => n
      end
  end.

(** lora_loader_remote.js, [updateNodeLoraCode] *)
Definition updateNodeLoraCode (node : Node) (loraCode mode : jsstring) : Node :=
  match inputWidget node with
  | None => node
  | Some inputWidget0 =>
      let currentValue := default [] (value inputWidget0) in
      let node :=
        if decide (mode = js "replace") then
          assign (WriteInput loraCode) node
        else
          assign (WriteInput
                    (if truthy (trim currentValue)
                     then trim currentValue ++ js " " ++ loraCode
                     else loraCode)) node in
      match inputWidget node with
      | Some w =>
          match callback w with
          | Some s => inputCallback s (value w) node
          | None => node
          end
      | None => node
      end
  end.

(** lora_loader_remote.js, the setter of [mode] with [onModeChange]: the
    new mode is stored, then the names are collected and given to the
    trigger-word nodes. *)
Definition loader_setMode (value : option Z) (n : Node) : Node :=
  let n := set_mode value n in
  let allActiveLoraNames := collectActiveLorasFromChain g n in
  log (UpdateConnectedTriggerWords allActiveLoraNames) n.

(** [loadedGraphNode] of a shim, on a node with the widget values
    [widgets_values] of the workflow file.  The text is read from the text
    widget of the node ([node.widgets[0]], [node.widgets[2]] on the WanVideo
    node, which is [node.inputWidget]); without that widget the read
    raises, which is [None] here. *)
Definition loadedGraphNode (s : Shim) (widgets_values : option (list Saved))
    (node : Node) : option Node :=
  if String.eqb (comfyClass node) (class_of_shim s) then
    match savedLoras (loras_slot s) widgets_values, inputWidget node with
    | Some existingLoras, Some inputWidget0 =>
        let mergedLoras := mergeLoras (value inputWidget0) existingLoras in
        Some (assign (WriteLoras mergedLoras) node)
    | _, _ => None
    end
  else Some node.

End Closures.

(** Notifications nest: a closure the host calls may assign a widget value
    in turn.  [depth] bounds the nesting the host is allowed. *)
Fixpoint notify (depth : nat) (g : Graph) (w : Write) (n : Node) : Node :=
  match depth with
  | O => n
  | S d => foldl (fun n c => handle g (notify d g) c n) n (host w n)
  end.

Definition isRemoteLoraClass (c : string) : bool :=
  String.eqb c LORA_LOADER || String.eqb c LORA_STACKER
  || String.eqb c WANVIDEO_LORA_SELECT.

Definition isLoraLoader (g : Graph) (i : nat) : bool :=
  match g !! i with
  | Some node => String.eqb (comfyClass node) LORA_LOADER
  | None => false
  end.

(** [typeof nodeId === "string" ? Number(nodeId) : nodeId] of
    [message?.node_id ?? message?.id] *)
Definition numericNodeId (m : message.t) : option Z :=
  let nodeId := match message.node_id m with
                | Some i => Some i
                | None => message.id m
                end in
  match nodeId with
  | Some (IdString s) => Number s
  | Some (IdNumber z) => Some z
  | None => None
  end.

(** One turn of the [forEach] over the loader nodes: the node at position
    [i] is updated in place. *)
Definition updateAt (depth : nat) (loraCode mode : jsstring) (g : Graph) (i : nat) : Graph :=
  match g !! i with
  | Some node => <[ i := updateNodeLoraCode g (notify depth g) node loraCode mode ]> g
  | None => g
  end.

(** lora_loader_remote.js, [handleLoraCodeUpdate] *)
Definition handleLoraCodeUpdate (depth : nat) (g : Graph) (m : message.t) : Graph :=
  let graphId := message.graph_id m in
  let loraCode := default [] (message.lora_code m) in
  let mode := default (js "append") (message.mode m) in
  if decide (numericNodeId m = Some (-1)%Z) then
    let loraLoaderNodes := List.filter (isLoraLoader g) (getAllGraphNodes g) in
    foldl (updateAt depth loraCode mode) g loraLoaderNodes
  else
    match getNodeFromGraph g graphId (numericNodeId m) with
    | None => g
    | Some i =>
        match g !! i with
        | None => g
        | Some node =>
            if negb (isRemoteLoraClass (comfyClass node)) then g
            else <[ i := updateNodeLoraCode g (notify depth g) node loraCode mode ]> g
        end
    end.


(** The node as a text change that is not dropped leaves it when it has
    replaced the entries, before it tells the collaborators. *)
Definition afterMerge (text : option jsstring) (n : Node) : Node :=
  let merged := mergeLoras text (default [] (lorasValue n)) in
  log (Assigned (WriteLoras merged)) (set_lorasValue merged (set_isUpdating true n)).

(** The text [updateNodeLoraCode] assigns. *)
Definition nextLoraCode (currentValue loraCode mode : jsstring) : jsstring :=
  if decide (mode = js "replace") then loraCode
  else if truthy (trim currentValue)
       then trim currentValue ++ js " " ++ loraCode
       else loraCode.

(** ** Properties of the closures *)

Local Ltac unfold_closures :=
  unfold inputCallback, lorasCallback,
    loader_inputCallback, loader_lorasCallback,
    stacker_inputCallback, stacker_lorasCallback,
    wanvideo_inputCallback, wanvideo_lorasCallback.

(** A closure entered while [isUpdating] is set returns at once. *)
Lemma inputCallback_guarded g nt s v n :
  isUpdating n = true → inputCallback g nt s v n = n.
Proof. intros H. destruct s; unfold_closures; by rewrite H. Qed.

Lemma lorasCallback_guarded g s v n :
  isUpdating n = true → lorasCallback g s v n = n.
Proof. intros H. destruct s; unfold_closures; by rewrite H. Qed.

Lemma handle_guarded g nt c n :
  isUpdating n = true → handle g nt c n = n.
Proof.
  intros H. destruct c as [v|v]; simpl.
  - destruct (inputWidget n) as [w|]; [|done].
    destruct (callback w); [|done]. by apply inputCallback_guarded.
  - destruct (shim_of_class _); [|done]. by apply lorasCallback_guarded.
Qed.

Lemma handle_all_guarded g nt cs n :
  isUpdating n = true → foldl (fun n c => handle g nt c n) n cs = n.
Proof.
  intros H. induction cs as [|c cs IH]; simpl; [done|].
  by rewrite handle_guarded.
Qed.

(** While [isUpdating] is set, whatever the host notifies is lost. *)
Lemma notify_guarded depth g w n :
  isUpdating n = true → notify depth g w n = n.
Proof. intros H. destruct depth; simpl; [done|]. by apply handle_all_guarded. Qed.

Lemma assign_guarded depth g w n :
  isUpdating n = true →
  assign (notify depth g) w n = log (Assigned w) (store w n).
Proof.
  intros H. unfold assign. apply notify_guarded. by destruct w.
Qed.

Lemma inputCallback_run depth g s v n :
  isUpdating n = false →
  let merged := mergeLoras v (default [] (lorasValue n)) in
  let m := afterMerge v n in
  let n' := inputCallback g (notify depth g) s v n in
  lorasValue n' = Some merged
  ∧ trace n' =
      trace n ++ [Assigned (WriteLoras merged);
                  UpdateConnectedTriggerWords
                    match s with
                    | LoaderShim => collectActiveLorasFromChain g m
                    | StackerShim =>
                        if isNodeActive n then getActiveLorasFromNode m else ∅
                    | WanVideoShim => getActiveLorasFromNode m
                    end]
              ++ match s with
                 | StackerShim => [UpdateDownstreamLoaders]
                 | _ => []
                 end
  ∧ isUpdating n' = false
  ∧ isSyncingInput n' = isSyncingInput n
  ∧ inputWidget n' = inputWidget n
  ∧ timer n' = timer n
  ∧ mode n' = mode n
  ∧ comfyClass n' = comfyClass n.
Proof.
  intros H. destruct s; unfold_closures; rewrite H;
    rewrite assign_guarded by reflexivity; simpl;
    rewrite <- ?app_assoc; simpl; repeat split; reflexivity.
Qed.

(** No closure assigns the text widget or replaces it. *)
Lemma handle_inputWidget g nt c n :
  (∀ w m, inputWidget (nt w m) = inputWidget m) →
  inputWidget (handle g nt c n) = inputWidget n.
Proof.
  intros Hnt. destruct c as [v|v]; simpl.
  - destruct (inputWidget n) as [w|] eqn:Hw; [|done].
    destruct (callback w) as [s|]; [|done].
    destruct s; unfold_closures; destruct (isUpdating n); try done;
      simpl; unfold assign; by rewrite Hnt.
  - destruct (shim_of_class _) as [s|]; [|done].
    destruct s; unfold_closures; by destruct (isUpdating n).
Qed.

Lemma notify_inputWidget depth g w n :
  inputWidget (notify depth g w n) = inputWidget n.
Proof.
  revert w n. induction depth as [|d IH]; intros w n; simpl; [done|].
  generalize (host w n). intros cs. revert n.
  induction cs as [|c cs IHcs]; intros n; simpl; [done|].
  rewrite IHcs. by apply handle_inputWidget.
Qed.

(** The debounced function, whatever the host notifies while it runs. *)
Lemma inputSync_run depth g v n :
  isSyncingInput n = false →
  let nextText := applyLoraValuesToText (inputValue n) v in
  inputSync (notify depth g) v n =
    set_isSyncingInput false (set_isUpdating false
      (if decide (inputValue n = Some nextText) then n
       else match inputWidget n with
            | None => n
            | Some _ =>
                log (Assigned (WriteInput nextText)) (set_inputValue nextText n)
            end)).
Proof.
  intros H. unfold inputSync, inputValue. rewrite H. simpl.
  destruct (inputWidget n) as [w|] eqn:Hw.
  - destruct (decide _) as [e|ne]; [done|].
    by rewrite assign_guarded.
  - by destruct (decide _).
Qed.

Lemma count_input_writes_snoc t e :
  count_input_writes (t ++ [e]) =
    count_input_writes t
    + match e with Assigned (WriteInput _) => 1 | _ => 0 end.
Proof.
  unfold count_input_writes. rewrite List.filter_app, length_app. simpl.
  by destruct e as [[|]| |].
Qed.

Lemma lorasCallback_writes g s v n :
  count_input_writes (trace (lorasCallback g s v n)) = count_input_writes (trace n)
  ∧ lorasValue (lorasCallback g s v n) = lorasValue n.
Proof.
  destruct s; unfold_closures; destruct (isUpdating n); simpl;
    rewrite ?count_input_writes_snoc; split; (lia || done).
Qed.

(** C3. A structured-list change or a text change that arrives while
    [isUpdating] is set is dropped: the closure returns the node as it
    found it (entries, text, both flags, the pending timer and the trace
    of calls to collaborators), whichever shim the closure belongs to and
    whatever the host would notify. *)
Theorem guarded_call_is_dropped depth g s text entries n :
  isUpdating n = true →
  inputCallback g (notify depth g) s text n = n
  ∧ lorasCallback g s entries n = n.
Proof.
  intros H. split.
  - by apply inputCallback_guarded.
  - by apply lorasCallback_guarded.
Qed.

(** C6. A firing of the debounced rewrite that finds [isSyncingInput] set
    does nothing.  Otherwise the text is encoded from the current text and
    the entries the rewrite was scheduled with; when the result is the
    current text the widget is not assigned (the trace and the widgets are
    as before), and when it differs, on a node that has its text widget,
    the widget is assigned once, with the result.  Both flags are clear
    afterwards. *)
Theorem inputSync_writes_only_a_change depth g lorasValue0 n :
  let nextText := applyLoraValuesToText (inputValue n) lorasValue0 in
  let n' := inputSync (notify depth g) lorasValue0 n in
  (isSyncingInput n = true → n' = n)
  ∧ (isSyncingInput n = false → inputValue n = Some nextText →
       trace n' = trace n ∧ inputWidget n' = inputWidget n
       ∧ lorasValue n' = lorasValue n ∧ timer n' = timer n)
  ∧ (isSyncingInput n = false → is_Some (inputWidget n) →
     inputValue n ≠ Some nextText →
       trace n' = trace n ++ [Assigned (WriteInput nextText)]
       ∧ inputValue n' = Some nextText
       ∧ lorasValue n' = lorasValue n ∧ timer n' = timer n)
  ∧ (isSyncingInput n = false →
       isUpdating n' = false ∧ isSyncingInput n' = false).
Proof.
  intros nextText n'. subst n'. split; [|split; [|split]].
  - intros H. unfold inputSync. by rewrite H.
  - intros H H'. rewrite inputSync_run by done. fold nextText.
    by destruct (decide _).
  - intros H [w Hw] H'. rewrite inputSync_run by done. fold nextText.
    destruct (decide _); [done|]. rewrite Hw. simpl. split_and!; try done.
    unfold inputValue. simpl. by rewrite Hw.
  - intros H. rewrite inputSync_run by done.
    destruct (decide _); [done|]. by destruct (inputWidget n).
Qed.

(** C2. A structured-list change followed by the firing of the rewrite it
    scheduled assigns the text widget at most once; the host's
    notifications are only ever delivered with both flags set, none of them
    has an effect, no further rewrite is pending afterwards, and the
    entries are as the change left them. *)
Theorem list_change_writes_text_at_most_once depth g s value0 n :
  let n1 := lorasCallback g s value0 n in
  let n2 := fireInputSync (notify depth g) n1 in
  count_input_writes (trace n2) ≤ count_input_writes (trace n) + 1
  ∧ (∀ nt nt' : Write → Node → Node,
       (∀ w m, isUpdating m = true → isSyncingInput m = true →
               nt w m = nt' w m) →
       fireInputSync nt n1 = fireInputSync nt' n1)
  ∧ n2 = fireInputSync (fun _ m => m) n1
  ∧ timer n2 = None
  ∧ lorasValue n2 = lorasValue n.
Proof.
  intros n1 n2.
  destruct (lorasCallback_writes g s value0 n) as [Hc Hl]. fold n1 in Hc, Hl.
  assert (Hpar : ∀ nt nt' : Write → Node → Node,
       (∀ w m, isUpdating m = true → isSyncingInput m = true →
               nt w m = nt' w m) →
       fireInputSync nt n1 = fireInputSync nt' n1).
  { intros nt nt' Hnt. unfold fireInputSync.
    destruct (timer n1) as [v|]; [|done].
    unfold inputSync. destruct (isSyncingInput _); [done|]. simpl.
    destruct (inputWidget n1); [|done].
    destruct (decide _); [done|]. unfold assign. by rewrite Hnt. }
  assert (Hsilent : n2 = fireInputSync (fun _ m => m) n1).
  { subst n2. apply Hpar. intros w m Hu _. by apply notify_guarded. }
  split_and!; [| exact Hpar | exact Hsilent | |].
  - rewrite Hsilent. unfold fireInputSync.
    destruct (timer n1) as [v|]; [|lia].
    unfold inputSync. destruct (isSyncingInput _); simpl; [lia|].
    destruct (inputWidget n1); simpl; [|lia].
    destruct (decide _); simpl; [lia|].
    unfold assign. simpl. rewrite count_input_writes_snoc. lia.
  - rewrite Hsilent. unfold fireInputSync.
    destruct (timer n1) as [v|] eqn:Ht; [|done].
    unfold inputSync. destruct (isSyncingInput _); simpl; [done|].
    destruct (inputWidget n1); [|done]. by destruct (decide _).
  - rewrite Hsilent, <- Hl. unfold fireInputSync.
    destruct (timer n1) as [v|] eqn:Ht; [|done].
    unfold inputSync. destruct (isSyncingInput _); simpl; [done|].
    destruct (inputWidget n1); [|done]. by destruct (decide _).
Qed.

(** ** [trim] *)

Lemma trimStart_blank s :
  Forall (λ c, isWhiteSpace c = true) s → trimStart s = [].
Proof. induction 1 as [|c s Hc _ IH]; simpl; [done|]. by rewrite Hc. Qed.

Lemma trimStart_head s c r :
  trimStart s = c :: r → isWhiteSpace c = false.
Proof.
  induction s as [|d s IH]; simpl; [done|].
  destruct (isWhiteSpace d) eqn:Hd; [done|]. congruence.
Qed.

Lemma trimStart_split s :
  ∃ pre, s = pre ++ trimStart s ∧ Forall (λ c, isWhiteSpace c = true) pre.
Proof.
  induction s as [|d s (pre & Hs & Hpre)]; simpl.
  - by exists [].
  - destruct (isWhiteSpace d) eqn:Hd.
    + exists (d :: pre). split; [simpl; congruence | by constructor].
    + by exists [].
Qed.

Lemma trimStart_nonblank s :
  Exists (λ c, isWhiteSpace c = false) s → trimStart s ≠ [].
Proof.
  intros Hex Hnil. destruct (trimStart_split s) as (pre & Hs & Hpre).
  rewrite Hnil, app_nil_r in Hs. subst pre.
  apply Exists_exists in Hex as (c & Hc & Hws).
  rewrite Forall_forall in Hpre. specialize (Hpre c Hc). congruence.
Qed.

Lemma trim_blank s :
  Forall (λ c, isWhiteSpace c = true) s → trim s = [].
Proof. intros H. unfold trim, trimEnd. by rewrite (trimStart_blank s H). Qed.

Lemma trim_nonblank s :
  Exists (λ c, isWhiteSpace c = false) s → truthy (trim s) = true.
Proof.
  intros H. apply trimStart_nonblank in H.
  destruct (trimStart s) as [|c r] eqn:Ht; [done|].
  pose proof (trimStart_head _ _ _ Ht) as Hc.
  unfold trim, trimEnd. rewrite Ht.
  assert (Hne : trimStart (rev (c :: r)) ≠ []).
  { apply trimStart_nonblank, Exists_exists. exists c. split; [|done].
    apply list_elem_of_In, in_rev. rewrite rev_involutive. by left. }
  destruct (trimStart (rev (c :: r))) as [|c' r']; [done|].
  simpl. by destruct (rev r').
Qed.

(** [trim s] is [s] without the whitespace around it. *)
Lemma trim_spec s :
  (∃ pre post, s = pre ++ trim s ++ post
               ∧ Forall (λ c, isWhiteSpace c = true) pre
               ∧ Forall (λ c, isWhiteSpace c = true) post)
  ∧ (∀ c r, trim s = c :: r → isWhiteSpace c = false)
  ∧ (∀ c r, trim s = r ++ [c] → isWhiteSpace c = false).
Proof.
  destruct (trimStart_split s) as (pre & Hs & Hpre).
  destruct (trimStart_split (rev (trimStart s))) as (pre2 & Hr & Hpre2).
  assert (Ht : trimStart s = trim s ++ rev pre2).
  { unfold trim, trimEnd. rewrite <- rev_app_distr, <- Hr.
    by rewrite rev_involutive. }
  split_and!.
  - exists pre, (rev pre2). split_and!; [congruence|done|].
    apply Forall_forall. intros c Hc. rewrite Forall_forall in Hpre2.
    apply Hpre2. by apply list_elem_of_In, in_rev, list_elem_of_In.
  - intros c r Hcr. rewrite Hcr in Ht. simpl in Ht.
    by apply trimStart_head in Ht.
  - intros c r Hcr. unfold trim, trimEnd in Hcr.
    apply (f_equal (@rev N)) in Hcr.
    rewrite rev_involutive, rev_app_distr in Hcr. simpl in Hcr.
    by apply trimStart_head in Hcr.
Qed.

(** ** [updateNodeLoraCode] *)

Lemma assign_input depth g text node w :
  inputWidget node = Some w →
  inputWidget (assign (notify depth g) (WriteInput text) node)
  = Some (mkInput (Some text) (callback w)).
Proof.
  intros H. unfold assign. rewrite notify_inputWidget. simpl. by rewrite H.
Qed.

Lemma inputCallback_inputWidget depth g s v n :
  inputWidget (inputCallback g (notify depth g) s v n) = inputWidget n.
Proof.
  destruct (isUpdating n) eqn:H.
  - by rewrite inputCallback_guarded.
  - by apply (inputCallback_run depth g s v n H).
Qed.

Lemma updateNodeLoraCode_run depth g node w loraCode mode0 :
  inputWidget node = Some w →
  let text := nextLoraCode (default [] (value w)) loraCode mode0 in
  let n1 := assign (notify depth g) (WriteInput text) node in
  updateNodeLoraCode g (notify depth g) node loraCode mode0
  = match callback w with
    | Some s => inputCallback g (notify depth g) s (Some text) n1
    | None => n1
    end
  ∧ inputValue (updateNodeLoraCode g (notify depth g) node loraCode mode0)
    = Some text.
Proof.
  intros H text n1.
  assert (Hw : inputWidget n1 = Some (mkInput (Some text) (callback w)))
    by by apply assign_input.
  assert (Hrun : updateNodeLoraCode g (notify depth g) node loraCode mode0
                 = match callback w with
                   | Some s => inputCallback g (notify depth g) s (Some text) n1
                   | None => n1
                   end).
  { unfold updateNodeLoraCode. rewrite H.
    assert (Heq : (if decide (mode0 = js "replace")
                   then assign (notify depth g) (WriteInput loraCode) node
                   else assign (notify depth g)
                          (WriteInput
                             (if truthy (trim (default [] (value w)))
                              then trim (default [] (value w)) ++ js " " ++ loraCode
                              else loraCode)) node) = n1).
    { subst n1 text. unfold nextLoraCode. by destruct (decide _). }
    rewrite Heq, Hw. done. }
  split; [done|]. rewrite Hrun. unfold inputValue.
  destruct (callback w) as [s|].
  - by rewrite inputCallback_inputWidget, Hw.
  - by rewrite Hw.
Qed.

(** C4. On a node whose text is "foo", the payload "<lora:bar:0.8>" in
    mode "append" leaves the text widget at "foo <lora:bar:0.8>", and in
    mode "replace" at "<lora:bar:0.8>". *)
Theorem updateNodeLoraCode_foo_bar depth g node w :
  inputWidget node = Some w →
  value w = Some (js "foo") →
  inputValue (updateNodeLoraCode g (notify depth g) node
                (js "<lora:bar:0.8>") (js "append"))
  = Some (js "foo <lora:bar:0.8>")
  ∧ inputValue (updateNodeLoraCode g (notify depth g) node
                  (js "<lora:bar:0.8>") (js "replace"))
    = Some (js "<lora:bar:0.8>").
Proof.
  intros Hw Hv. split.
  - rewrite (proj2 (updateNodeLoraCode_run depth g node w _ _ Hw)).
    by rewrite Hv.
  - rewrite (proj2 (updateNodeLoraCode_run depth g node w _ _ Hw)).
    by rewrite Hv.
Qed.

(** C9. In a mode other than "replace" (so in "append"), on a text that is
    empty or all whitespace the widget gets the payload alone; on any other
    text it gets the text without the whitespace around it, one space, and
    the payload.  In every mode, when the widget has a callback, the result
    is that of the callback called with the new text on the node as the
    assignment left it. *)
Theorem updateNodeLoraCode_append depth g node w loraCode mode0 :
  inputWidget node = Some w →
  let currentValue := default [] (value w) in
  let node' := updateNodeLoraCode g (notify depth g) node loraCode mode0 in
  (mode0 ≠ js "replace" →
   Forall (λ c, isWhiteSpace c = true) currentValue →
   inputValue node' = Some loraCode)
  ∧ (mode0 ≠ js "replace" →
     Exists (λ c, isWhiteSpace c = false) currentValue →
     inputValue node' = Some (trim currentValue ++ [32%N] ++ loraCode)
     ∧ (∃ pre post, currentValue = pre ++ trim currentValue ++ post
                    ∧ Forall (λ c, isWhiteSpace c = true) pre
                    ∧ Forall (λ c, isWhiteSpace c = true) post)
     ∧ (∀ c r, trim currentValue = c :: r → isWhiteSpace c = false)
     ∧ (∀ c r, trim currentValue = r ++ [c] → isWhiteSpace c = false))
  ∧ (∀ s, callback w = Some s →
       ∃ text,
         let n1 := assign (notify depth g) (WriteInput text) node in
         inputValue n1 = Some text
         ∧ inputValue node' = Some text
         ∧ node' = inputCallback g (notify depth g) s (Some text) n1).
Proof.
  intros Hw currentValue node'.
  destruct (updateNodeLoraCode_run depth g node w loraCode mode0 Hw)
    as [Hrun Hval].
  fold node' in Hrun, Hval. fold currentValue in Hrun, Hval.
  split_and!.
  - intros Hm Hblank. rewrite Hval. unfold nextLoraCode.
    destruct (decide _); [done|]. by rewrite (trim_blank _ Hblank).
  - intros Hm Hsome. split; [|apply trim_spec].
    rewrite Hval. unfold nextLoraCode.
    destruct (decide _); [done|]. by rewrite (trim_nonblank _ Hsome).
  - intros s Hs. eexists. split_and!; [|exact Hval|].
    + unfold inputValue. by rewrite (assign_input _ _ _ _ _ Hw).
    + by rewrite Hrun, Hs.
Qed.

(** ** [handleLoraCodeUpdate] *)

Lemma updateAt_other depth loraCode mode0 g i j :
  i ≠ j → updateAt depth loraCode mode0 g i !! j = g !! j.
Proof.
  intros H. unfold updateAt. destruct (g !! i); [|done].
  by apply list_lookup_insert_ne.
Qed.

Lemma updateAt_same depth loraCode mode0 g i node :
  g !! i = Some node →
  updateAt depth loraCode mode0 g i !! i
  = Some (updateNodeLoraCode g (notify depth g) node loraCode mode0).
Proof.
  intros H. unfold updateAt. rewrite H.
  apply list_lookup_insert_eq. by eapply lookup_lt_Some.
Qed.

(** The [forEach]: a listed node is updated in its turn, in the graph as
    the turns before it left it; the others are not touched. *)
Lemma forEach_updateAt depth loraCode mode0 l :
  NoDup l →
  ∀ g i,
    (i ∈ l → ∀ node, g !! i = Some node →
       ∃ g', foldl (updateAt depth loraCode mode0) g l !! i
             = Some (updateNodeLoraCode g' (notify depth g') node loraCode mode0))
    ∧ (i ∉ l → foldl (updateAt depth loraCode mode0) g l !! i = g !! i).
Proof.
  induction 1 as [|a l Ha Hl IH]; intros g i; simpl.
  - split; [by intros ?%elem_of_nil | done].
  - destruct (IH (updateAt depth loraCode mode0 g a) i) as [IHin IHout].
    split.
    + intros Hi node Hnode. destruct (decide (i = a)) as [->|Hne].
      * exists g. rewrite (IHout Ha). by apply updateAt_same.
      * apply elem_of_cons in Hi as [?|Hi]; [done|].
        apply IHin; [done|]. by rewrite updateAt_other.
    + intros Hi. apply not_elem_of_cons in Hi as [Hne Hi].
      rewrite (IHout Hi). by apply updateAt_other.
Qed.

Lemma isRemoteLoraClass_false c :
  c ≠ LORA_LOADER ∧ c ≠ LORA_STACKER ∧ c ≠ WANVIDEO_LORA_SELECT ↔
  isRemoteLoraClass c = false.
Proof.
  unfold isRemoteLoraClass. rewrite !orb_false_iff, !String.eqb_neq. tauto.
Qed.

Lemma isLoraLoader_true g i :
  isLoraLoader g i = true ↔
  ∃ node, g !! i = Some node ∧ comfyClass node = LORA_LOADER.
Proof.
  unfold isLoraLoader. destruct (g !! i) as [node|].
  - rewrite String.eqb_eq. split.
    + intros H. by exists node.
    + by intros (node' & [= <-] & H).
  - split; [done | by intros (node & ? & _)].
Qed.

(** C5, as the code has it.  An event whose node id is the number -1, or a
    string that [Number] turns into -1, reaches the nodes of class "Lora
    Loader (Remote, LoraManager)" that [getAllGraphNodes] lists, each
    updated once, and leaves every other node as it was.  Any other node
    id reaches the one node [getNodeFromGraph] finds, when its class is
    one of the three remote lora classes, and leaves every other node as
    it was. *)
Theorem handleLoraCodeUpdate_reaches depth g m :
  let loraCode := default [] (message.lora_code m) in
  let mode0 := default (js "append") (message.mode m) in
  let g1 := handleLoraCodeUpdate depth g m in
  (message.node_id m = Some (IdNumber (-1)) → numericNodeId m = Some (-1)%Z)
  ∧ (∀ s, message.node_id m = Some (IdString s) → Number s = Some (-1)%Z →
       numericNodeId m = Some (-1)%Z)
  ∧ (numericNodeId m = Some (-1)%Z → NoDup (getAllGraphNodes g) →
     ∀ i,
       (i ∈ getAllGraphNodes g → ∀ node, g !! i = Some node →
        comfyClass node = LORA_LOADER →
        ∃ g', g1 !! i
              = Some (updateNodeLoraCode g' (notify depth g') node loraCode mode0))
       ∧ (i ∉ getAllGraphNodes g
          ∨ (∀ node, g !! i = Some node → comfyClass node ≠ LORA_LOADER) →
          g1 !! i = g !! i))
  ∧ (numericNodeId m ≠ Some (-1)%Z →
     ∀ i node,
       getNodeFromGraph g (message.graph_id m) (numericNodeId m) = Some i →
       g !! i = Some node →
       isRemoteLoraClass (comfyClass node) = true →
       g1 !! i = Some (updateNodeLoraCode g (notify depth g) node loraCode mode0)
       ∧ ∀ j, j ≠ i → g1 !! j = g !! j).
Proof.
  intros loraCode mode0 g1. split_and!.
  - intros H. unfold numericNodeId. by rewrite H.
  - intros s H Hs. unfold numericNodeId. by rewrite H.
  - intros Hid Hnd i. subst g1. unfold handleLoraCodeUpdate.
    destruct (decide _) as [_|]; [|done]. fold loraCode mode0.
    assert (Hnd' : NoDup (List.filter (isLoraLoader g) (getAllGraphNodes g)))
      by by apply NoDup_ListNoDup, List.NoDup_filter, NoDup_ListNoDup.
    destruct (forEach_updateAt depth loraCode mode0 _ Hnd' g i) as [Hin Hout].
    split.
    + intros Hi node Hnode Hclass. apply Hin; [|done].
      apply list_elem_of_In, List.filter_In. split; [by apply list_elem_of_In|].
      apply isLoraLoader_true. eauto.
    + intros Hi. apply Hout. intros Hmem.
      apply list_elem_of_In, List.filter_In in Hmem as [Hmem Hl].
      apply list_elem_of_In in Hmem.
      apply isLoraLoader_true in Hl as (node & Hnode & Hclass).
      destruct Hi as [Hi|Hi]; [done|]. by apply (Hi node).
  - intros Hid i node Hget Hnode Hclass. subst g1.
    unfold handleLoraCodeUpdate.
    destruct (decide _) as [|_]; [done|]. fold loraCode mode0.
    rewrite Hget, Hnode, Hclass. simpl. split.
    + apply list_lookup_insert_eq. by eapply lookup_lt_Some.
    + intros j Hj. by apply list_lookup_insert_ne.
Qed.

(** C10. An event for one node (its node id is not -1) leaves the graph
    as it was when [getNodeFromGraph] finds no node, when the class of the
    node it finds is none of the three remote lora classes, or when that
    node has no input widget. *)
Theorem handleLoraCodeUpdate_ignores depth g m :
  numericNodeId m ≠ Some (-1)%Z →
  (getNodeFromGraph g (message.graph_id m) (numericNodeId m) = None
   ∨ ∃ i node,
       getNodeFromGraph g (message.graph_id m) (numericNodeId m) = Some i
       ∧ g !! i = Some node
       ∧ ((comfyClass node ≠ LORA_LOADER ∧ comfyClass node ≠ LORA_STACKER
           ∧ comfyClass node ≠ WANVIDEO_LORA_SELECT)
          ∨ inputWidget node = None)) →
  handleLoraCodeUpdate depth g m = g.
Proof.
  intros Hid Hcase. unfold handleLoraCodeUpdate.
  destruct (decide _) as [|_]; [done|].
  destruct Hcase as [->|(i & node & -> & Hnode & Hwhy)]; [done|].
  rewrite Hnode. destruct Hwhy as [Hclass|Hw].
  - apply isRemoteLoraClass_false in Hclass. by rewrite Hclass.
  - destruct (negb _); [done|].
    unfold updateNodeLoraCode. rewrite Hw. by apply list_insert_id.
Qed.

(** ** What the closures keep *)

Lemma same_frame_refl n : same_frame n n.
Proof. unfold same_frame. by split_and!. Qed.

Lemma same_frame_trans n1 n2 n3 :
  same_frame n1 n2 → same_frame n2 n3 → same_frame n1 n3.
Proof.
  intros (Hc & Hm & Hw & Hi) (Hc' & Hm' & Hw' & Hi').
  unfold same_frame.
  split_and!; [by rewrite Hc' | by rewrite Hm' | by rewrite Hw' | auto].
Qed.

Lemma inputCallback_frame depth g s v n :
  same_frame n (inputCallback g (notify depth g) s v n).
Proof.
  destruct (isUpdating n) eqn:H.
  - rewrite inputCallback_guarded by done. apply same_frame_refl.
  - destruct (inputCallback_run depth g s v n H)
      as (_ & _ & Hu & Hs & Hw & _ & Hm & Hc).
    unfold same_frame, idle. rewrite Hw. split_and!; [done | done | done |].
    intros [_ Hi]. split; [done | by rewrite Hs].
Qed.

Lemma lorasCallback_frame g s v n : same_frame n (lorasCallback g s v n).
Proof.
  destruct s; unfold_closures; destruct (isUpdating n) eqn:H;
    try apply same_frame_refl; unfold same_frame, idle; simpl;
    (split_and!; [done | done | done |]); by intros [_ ?].
Qed.

Lemma handle_frame depth g c n : same_frame n (handle g (notify depth g) c n).
Proof.
  destruct c as [v|v]; simpl.
  - destruct (inputWidget n) as [w|]; [|apply same_frame_refl].
    destruct (callback w); [|apply same_frame_refl].
    apply inputCallback_frame.
  - destruct (shim_of_class _); [|apply same_frame_refl].
    apply lorasCallback_frame.
Qed.

Lemma notify_frame depth g w n : same_frame n (notify depth g w n).
Proof.
  destruct depth as [|d]; simpl; [apply same_frame_refl|].
  generalize (host w n). intros cs. revert n.
  induction cs as [|c cs IH]; intros n; simpl; [apply same_frame_refl|].
  eapply same_frame_trans; [apply handle_frame | apply IH].
Qed.

Lemma assign_frame depth g w n : same_frame n (assign (notify depth g) w n).
Proof.
  unfold assign. eapply same_frame_trans; [|apply notify_frame].
  unfold same_frame, idle.
  destruct w; simpl; destruct (inputWidget n); simpl; by split_and!.
Qed.

Lemma updateNodeLoraCode_frame depth g node loraCode mode0 :
  same_frame node (updateNodeLoraCode g (notify depth g) node loraCode mode0).
Proof.
  destruct (inputWidget node) as [w|] eqn:Hw.
  - rewrite (proj1 (updateNodeLoraCode_run depth g node w loraCode mode0 Hw)).
    destruct (callback w).
    + eapply same_frame_trans; [apply assign_frame | apply inputCallback_frame].
    + apply assign_frame.
  - unfold updateNodeLoraCode. rewrite Hw. apply same_frame_refl.
Qed.

Lemma fireInputSync_frame depth g n :
  same_frame n (fireInputSync (notify depth g) n).
Proof.
  unfold fireInputSync. destruct (timer n) as [v|]; [|apply same_frame_refl].
  destruct (isSyncingInput n) eqn:Hs.
  - unfold inputSync. simpl. rewrite Hs. unfold same_frame, idle. simpl.
    by split_and!.
  - rewrite inputSync_run by done. unfold same_frame, idle.
    destruct (decide _); simpl; destruct (inputWidget n) eqn:Hw; simpl;
      rewrite ?Hw; simpl;
      (split_and!; [done | done | done |]); by intros [_ ?].
Qed.

Lemma loadedGraphNode_frame depth g s widgets_values node node' :
  loadedGraphNode (notify depth g) s widgets_values node = Some node' →
  same_frame node node'.
Proof.
  unfold loadedGraphNode. destruct (String.eqb _ _).
  - destruct (savedLoras _ _); [|done]. destruct (inputWidget node); [|done].
    intros [= <-]. apply assign_frame.
  - intros [= <-]. apply same_frame_refl.
Qed.

(** X1. The guards are always released: every entry point of a node (a text
    change, a list change, the firing of the rewrite, a lora-code update, a
    mode change, the restore of a saved node) takes a node on which no
    closure is running to such a node again, whatever the host notifies. *)
Theorem closures_keep_idle depth g s text entries loraCode mode0 m
    widgets_values n :
  idle n →
  idle (inputCallback g (notify depth g) s text n)
  ∧ idle (lorasCallback g s entries n)
  ∧ idle (fireInputSync (notify depth g) n)
  ∧ idle (updateNodeLoraCode g (notify depth g) n loraCode mode0)
  ∧ idle (loader_setMode g m n)
  ∧ ∀ n', loadedGraphNode (notify depth g) s widgets_values n = Some n' →
          idle n'.
Proof.
  intros H. split_and!.
  - by apply inputCallback_frame.
  - by apply lorasCallback_frame.
  - by apply fireInputSync_frame.
  - by apply updateNodeLoraCode_frame.
  - exact H.
  - intros n' Hn'. by apply (loadedGraphNode_frame _ _ _ _ _ _ Hn').
Qed.

Lemma updateAt_frame depth loraCode mode0 g a :
  length (updateAt depth loraCode mode0 g a) = length g
  ∧ ∀ i n, g !! i = Some n →
      ∃ n1, updateAt depth loraCode mode0 g a !! i = Some n1 ∧ same_frame n n1.
Proof.
  unfold updateAt. destruct (g !! a) as [node|] eqn:Ha; cbv beta iota.
  - split; [apply length_insert|]. intros i n Hi.
    destruct (decide (a = i)) as [->|Hne].
    + eexists. split.
      * apply list_lookup_insert_eq. by eapply lookup_lt_Some.
      * replace n with node by congruence. apply updateNodeLoraCode_frame.
    + exists n. split; [|apply same_frame_refl].
      etrans; [by apply list_lookup_insert_ne | done].
  - split; [done|]. intros i n Hi. exists n.
    split; [done | apply same_frame_refl].
Qed.

Lemma forEach_frame depth loraCode mode0 l :
  ∀ g,
    length (foldl (updateAt depth loraCode mode0) g l) = length g
    ∧ ∀ i n, g !! i = Some n →
        ∃ n1, foldl (updateAt depth loraCode mode0) g l !! i = Some n1
              ∧ same_frame n n1.
Proof.
  induction l as [|a l IH]; intros g; simpl.
  - split; [done|]. intros i n Hi. exists n.
    split; [done | apply same_frame_refl].
  - destruct (IH (updateAt depth loraCode mode0 g a)) as [Hlen Hpt].
    destruct (updateAt_frame depth loraCode mode0 g a) as [Hlen' Hpt'].
    split; [congruence|]. intros i n Hi.
    destruct (Hpt' i n Hi) as (n1 & Hn1 & Hf1).
    destruct (Hpt i n1 Hn1) as (n2 & Hn2 & Hf2).
    exists n2. split; [done|]. by eapply same_frame_trans.
Qed.

(** X2. A lora-code update event, to one node or to all, never adds or
    removes a node and never changes the class or the mode of a node, nor
    whether it has a text widget or which callback that has; and every node
    on which no closure was running is left so. *)
Theorem handleLoraCodeUpdate_frame depth g m :
  let g1 := handleLoraCodeUpdate depth g m in
  length g1 = length g
  ∧ ∀ i n, g !! i = Some n → ∃ n1, g1 !! i = Some n1 ∧ same_frame n n1.
Proof.
  intros g1. subst g1. unfold handleLoraCodeUpdate.
  set (loraCode := default [] (message.lora_code m)).
  set (mode0 := default (js "append") (message.mode m)).
  destruct (decide _) as [_|_]; [apply forEach_frame|].
  assert (Hid : length g = length g
                ∧ ∀ i n, g !! i = Some n → ∃ n1, g !! i = Some n1 ∧ same_frame n n1).
  { split; [done|]. intros i n Hi. exists n. split; [done | apply same_frame_refl]. }
  destruct (getNodeFromGraph _ _ _) as [a|]; [|exact Hid].
  destruct (g !! a) as [node|] eqn:Ha; [|exact Hid].
  destruct (negb _); [exact Hid|].
  pose proof (updateAt_frame depth loraCode mode0 g a) as Hup.
  unfold updateAt in Hup. by rewrite Ha in Hup.
Qed.

(** X3. Each closure writes its own side only.  A text change never assigns
    the text widget and never touches the pending rewrite; a list change
    never assigns the text widget and never changes the entries; the firing
    of the rewrite never changes the entries.  This holds whatever the host
    notifies. *)
Theorem closures_write_one_side depth g s text entries n :
  (inputWidget (inputCallback g (notify depth g) s text n) = inputWidget n
   ∧ count_input_writes (trace (inputCallback g (notify depth g) s text n))
     = count_input_writes (trace n)
   ∧ timer (inputCallback g (notify depth g) s text n) = timer n)
  ∧ (inputWidget (lorasCallback g s entries n) = inputWidget n
     ∧ count_input_writes (trace (lorasCallback g s entries n))
       = count_input_writes (trace n)
     ∧ lorasValue (lorasCallback g s entries n) = lorasValue n)
  ∧ lorasValue (fireInputSync (notify depth g) n) = lorasValue n.
Proof.
  split_and!.
  - apply inputCallback_inputWidget.
  - destruct (isUpdating n) eqn:H.
    + by rewrite inputCallback_guarded.
    + destruct (inputCallback_run depth g s text n H) as (_ & -> & _).
      unfold count_input_writes.
      rewrite !List.filter_app, !length_app. simpl. by destruct s.
  - destruct (isUpdating n) eqn:H.
    + by rewrite inputCallback_guarded.
    + by apply (inputCallback_run depth g s text n H).
  - destruct s; unfold_closures; by destruct (isUpdating n).
  - apply lorasCallback_writes.
  - apply lorasCallback_writes.
  - unfold fireInputSync. destruct (timer n) as [v|]; [|done].
    destruct (isSyncingInput n) eqn:Hs.
    + unfold inputSync. simpl. by rewrite Hs.
    + rewrite inputSync_run by done.
      destruct (decide _); [done|]. simpl. by destruct (inputWidget n).
Qed.

(** ** How the handler reads the event *)

Lemma updateNodeLoraCode_mode g nt node loraCode m1 m2 :
  m1 ≠ js "replace" → m2 ≠ js "replace" →
  updateNodeLoraCode g nt node loraCode m1
  = updateNodeLoraCode g nt node loraCode m2.
Proof.
  intros H1 H2. unfold updateNodeLoraCode.
  destruct (inputWidget node); [|done].
  by destruct (decide (m1 = _)), (decide (m2 = _)).
Qed.

Lemma forEach_mode depth loraCode m1 m2 l :
  m1 ≠ js "replace" → m2 ≠ js "replace" →
  ∀ g, foldl (updateAt depth loraCode m1) g l
       = foldl (updateAt depth loraCode m2) g l.
Proof.
  intros H1 H2. induction l as [|a l IH]; intros g; simpl; [done|].
  rewrite IH. f_equal. unfold updateAt. destruct (g !! a); [|done].
  f_equal. by apply updateNodeLoraCode_mode.
Qed.

Lemma default_mode_append (md : option jsstring) :
  md ≠ Some (js "replace") → default (js "append") md ≠ js "replace".
Proof. destruct md as [x|]; simpl; [congruence | discriminate]. Qed.

(** X4. How the handler reads the event.  Every mode that is not "replace"
    (a missing one, "append", any other word) gives the same result; [id] is
    looked at only when [node_id] is missing; a string id counts as the
    integer [Number] makes of it; a missing [lora_code] is the empty
    payload. *)
Theorem handleLoraCodeUpdate_reads depth g nid i gid code md :
  (∀ md', md ≠ Some (js "replace") → md' ≠ Some (js "replace") →
     handleLoraCodeUpdate depth g (message.mk nid i gid code md)
     = handleLoraCodeUpdate depth g (message.mk nid i gid code md'))
  ∧ (∀ j, handleLoraCodeUpdate depth g (message.mk (Some j) i gid code md)
          = handleLoraCodeUpdate depth g (message.mk None (Some j) gid code md))
  ∧ (∀ s z, Number s = Some z →
       handleLoraCodeUpdate depth g
         (message.mk (Some (IdString s)) i gid code md)
       = handleLoraCodeUpdate depth g
           (message.mk (Some (IdNumber z)) i gid code md))
  ∧ (code = None →
     handleLoraCodeUpdate depth g (message.mk nid i gid code md)
     = handleLoraCodeUpdate depth g (message.mk nid i gid (Some []) md)).
Proof.
  split_and!.
  - intros md' H H'. apply default_mode_append in H, H'.
    unfold handleLoraCodeUpdate. simpl.
    destruct (decide _); [by apply forEach_mode|].
    destruct (getNodeFromGraph _ _ _) as [a|]; [|done].
    destruct (g !! a) as [node|]; [|done].
    destruct (negb _); [done|]. f_equal. by apply updateNodeLoraCode_mode.
  - done.
  - intros s z Hs. unfold handleLoraCodeUpdate, numericNodeId. simpl.
    by rewrite Hs.
  - by intros ->.
Qed.

(** ** Updates in sequence *)

Lemma updateNodeLoraCode_widget depth g node w loraCode mode0 :
  inputWidget node = Some w →
  inputWidget (updateNodeLoraCode g (notify depth g) node loraCode mode0)
  = Some (mkInput (Some (nextLoraCode (default [] (value w)) loraCode mode0))
                  (callback w)).
Proof.
  intros Hw.
  rewrite (proj1 (updateNodeLoraCode_run depth g node w loraCode mode0 Hw)).
  pose proof (assign_input depth g
                (nextLoraCode (default [] (value w)) loraCode mode0) node w Hw)
    as Ha.
  destruct (callback w); [rewrite inputCallback_inputWidget|]; exact Ha.
Qed.

Lemma trim_fixed s c r r' d :
  s = c :: r → s = r' ++ [d] →
  isWhiteSpace c = false → isWhiteSpace d = false →
  trim s = s.
Proof.
  intros Hs Hs' Hc Hd. unfold trim, trimEnd.
  assert (H1 : trimStart s = s) by (rewrite Hs; simpl; by rewrite Hc).
  rewrite H1. rewrite Hs' at 1. rewrite rev_app_distr. simpl. rewrite Hd.
  change (d :: rev r') with (rev [d] ++ rev r').
  by rewrite <- rev_app_distr, rev_involutive.
Qed.

(** X5. Updates in sequence.  A "replace" after any update leaves exactly
    its payload.  Two updates in a mode other than "replace" accumulate: on
    a text that is not blank, with a first payload that ends in a character
    that is not whitespace, the text is the trimmed text, the first payload
    and the second, with one space between them. *)
Theorem updates_in_sequence depth g g' node w c1 c2 m1 :
  inputWidget node = Some w →
  let currentValue := default [] (value w) in
  let node1 := updateNodeLoraCode g (notify depth g) node c1 m1 in
  inputValue (updateNodeLoraCode g' (notify depth g') node1 c2 (js "replace"))
  = Some c2
  ∧ (∀ m2 r d,
       m1 ≠ js "replace" → m2 ≠ js "replace" →
       Exists (λ c, isWhiteSpace c = false) currentValue →
       c1 = r ++ [d] → isWhiteSpace d = false →
       inputValue (updateNodeLoraCode g' (notify depth g') node1 c2 m2)
       = Some (trim currentValue ++ [32%N] ++ c1 ++ [32%N] ++ c2)).
Proof.
  intros Hw currentValue node1.
  pose proof (updateNodeLoraCode_widget depth g node w c1 m1 Hw) as Hw1.
  fold node1 in Hw1. split.
  - by rewrite (proj2 (updateNodeLoraCode_run depth g' node1 _ c2 _ Hw1)).
  - intros m2 r d Hm1 Hm2 Hex Hc1 Hd.
    rewrite (proj2 (updateNodeLoraCode_run depth g' node1 _ c2 m2 Hw1)).
    simpl. fold currentValue. f_equal.
    pose proof (trim_nonblank _ Hex) as Ht.
    assert (Hfirst : nextLoraCode currentValue c1 m1
                     = trim currentValue ++ [32%N] ++ c1).
    { unfold nextLoraCode. destruct (decide _); [done|]. by rewrite Ht. }
    rewrite Hfirst. destruct (trim currentValue) as [|c t] eqn:Htrim; [done|].
    assert (Hc : isWhiteSpace c = false)
      by (eapply (proj1 (proj2 (trim_spec currentValue))); exact Htrim).
    assert (Hfix : trim ((c :: t) ++ [32%N] ++ c1) = (c :: t) ++ [32%N] ++ c1).
    { eapply (trim_fixed _ c (t ++ [32%N] ++ c1) ((c :: t) ++ [32%N] ++ r) d);
        [done | | done | done].
      rewrite Hc1. by rewrite <- !app_assoc. }
    unfold nextLoraCode. destruct (decide _); [done|].
    rewrite Hfix. simpl. by rewrite <- !app_assoc.
Qed.

(** X6. The rewrite settles in one step.  When encoding the rewritten text
    with the same entries gives that text again, a rewrite leaves the text
    at the encoded text, and a second firing with the same entries leaves
    the node exactly as it is: nothing is assigned, nothing is notified. *)
Theorem rewrite_settles depth g lorasValue0 n w :
  inputWidget n = Some w →
  isSyncingInput n = false →
  let nextText := applyLoraValuesToText (inputValue n) lorasValue0 in
  applyLoraValuesToText (Some nextText) lorasValue0 = nextText →
  let n1 := inputSync (notify depth g) lorasValue0 n in
  inputValue n1 = Some nextText
  ∧ inputSync (notify depth g) lorasValue0 n1 = n1.
Proof.
  intros Hw Hs nextText Hfix n1.
  assert (Hn1 : n1 = set_isSyncingInput false (set_isUpdating false
            (if decide (inputValue n = Some nextText) then n
             else log (Assigned (WriteInput nextText))
                      (set_inputValue nextText n)))).
  { subst n1. rewrite inputSync_run by done. by rewrite Hw. }
  assert (Hv : inputValue n1 = Some nextText).
  { rewrite Hn1. destruct (decide _) as [e|ne]; [exact e|].
    unfold inputValue. simpl. by rewrite Hw. }
  split; [exact Hv|].
  rewrite inputSync_run by (rewrite Hn1; by destruct (decide _)).
  rewrite Hv, Hfix.
  destruct (decide (Some nextText = Some nextText)) as [_|ne]; [|by destruct ne].
  rewrite Hn1. by destruct (decide _).
Qed.

(** ** Restoring a saved node *)

Lemma class_of_shim_eqb s s' :
  s' ≠ s → String.eqb (class_of_shim s) (class_of_shim s') = false.
Proof. intros H. by destruct s, s'. Qed.

Lemma handle_trace depth g c n :
  ∃ rest, trace (handle g (notify depth g) c n) = trace n ++ rest
          ∧ count_input_writes rest = 0.
Proof.
  assert (Hno : ∃ rest, trace n = trace n ++ rest ∧ count_input_writes rest = 0)
    by (exists []; by rewrite app_nil_r).
  destruct c as [v|v]; simpl.
  - destruct (inputWidget n) as [w|]; [|done]. destruct (callback w) as [s|]; [|done].
    destruct (isUpdating n) eqn:H.
    + by rewrite inputCallback_guarded.
    + destruct (inputCallback_run depth g s v n H) as (_ & -> & _).
      eexists. split; [done|]. by destruct s.
  - destruct (shim_of_class _) as [s|]; [|done].
    destruct s; unfold_closures; destruct (isUpdating n); try done; simpl;
      rewrite <- ?app_assoc; by eexists.
Qed.

Lemma notify_trace depth g w n :
  ∃ rest, trace (notify depth g w n) = trace n ++ rest
          ∧ count_input_writes rest = 0.
Proof.
  destruct depth as [|d]; simpl; [exists []; by rewrite app_nil_r|].
  generalize (host w n). intros cs. revert n.
  induction cs as [|c cs IH]; intros n; simpl; [exists []; by rewrite app_nil_r|].
  destruct (IH (handle g (notify d g) c n)) as (r2 & -> & H2).
  destruct (handle_trace d g c n) as (r1 & -> & H1).
  exists (r1 ++ r2). split; [by rewrite app_assoc|].
  unfold count_input_writes in *. rewrite List.filter_app, length_app. lia.
Qed.

(** X7. The [loadedGraphNode] hooks keep to their own class.  The hook of a
    shim returns a node of another class as it is, and it leaves the class
    of its own nodes alone; so on a node of one shim the hooks of the other
    two do nothing, before and after the node's own hook has run. *)
Theorem loadedGraphNode_own_class depth g s s' widgets_values widgets_values' n :
  comfyClass n = class_of_shim s →
  s' ≠ s →
  loadedGraphNode (notify depth g) s' widgets_values' n = Some n
  ∧ ∀ n', loadedGraphNode (notify depth g) s widgets_values n = Some n' →
          loadedGraphNode (notify depth g) s' widgets_values' n' = Some n'.
Proof.
  intros Hc Hs.
  assert (Hoff : ∀ m, comfyClass m = class_of_shim s →
            loadedGraphNode (notify depth g) s' widgets_values' m = Some m).
  { intros m Hm. unfold loadedGraphNode.
    by rewrite Hm, class_of_shim_eqb. }
  split; [by apply Hoff|].
  intros n' Hn'. apply Hoff.
  destruct (loadedGraphNode_frame _ _ _ _ _ _ Hn') as (Hc' & _). congruence.
Qed.

(** X8. What [loadedGraphNode] restores.  On a node of the shim's class the
    first thing done is the assignment of the entries merged from the text
    of the node and the saved entries, whatever entries the node holds; the
    saved entries are none when the workflow has no widget values, an empty
    list of them, or nothing (or null, false, an empty string) in the slot
    of the loras widget.  The text widget is never assigned. *)
Theorem loadedGraphNode_restores depth g s widgets_values n w existingLoras :
  comfyClass n = class_of_shim s →
  inputWidget n = Some w →
  savedLoras (loras_slot s) widgets_values = Some existingLoras →
  (∃ n' rest,
     loadedGraphNode (notify depth g) s widgets_values n = Some n'
     ∧ trace n' = trace n
                  ++ Assigned (WriteLoras (mergeLoras (value w) existingLoras))
                  :: rest
     ∧ count_input_writes rest = 0
     ∧ inputWidget n' = inputWidget n)
  ∧ (widgets_values = None ∨ widgets_values = Some []
     ∨ (∃ l, widgets_values = Some l
             ∧ (length l ≤ loras_slot s
                ∨ ∃ v, l !! loras_slot s = Some v ∧ saved_truthy v = false)) →
     existingLoras = [])
  ∧ (∀ l e, widgets_values = Some l → l !! loras_slot s = Some (SavedLoras e) →
            existingLoras = e).
Proof.
  intros Hc Hw Hsaved. split_and!.
  - unfold loadedGraphNode.
    rewrite Hc, String.eqb_refl, Hsaved, Hw. unfold assign.
    destruct (notify_trace depth g
                (WriteLoras (mergeLoras (value w) existingLoras))
                (log (Assigned (WriteLoras (mergeLoras (value w) existingLoras)))
                   (store (WriteLoras (mergeLoras (value w) existingLoras)) n)))
      as (rest & Ht & Hcount).
    eexists _, rest. split_and!; [done | | done |].
    + rewrite Ht. simpl. by rewrite <- app_assoc.
    + by rewrite notify_inputWidget.
  - unfold savedLoras in Hsaved.
    intros [->|[->|(l & -> & Hl)]]; [congruence|congruence|].
    destruct l as [|v0 l]; [congruence|].
    destruct Hl as [Hlen|(v & Hv & Hfalsy)].
    + rewrite (lookup_ge_None_2 (v0 :: l)) in Hsaved by done. congruence.
    + rewrite Hv in Hsaved. destruct v; simpl in Hfalsy, Hsaved;
        try rewrite Hfalsy in Hsaved; congruence.
  - unfold savedLoras in Hsaved.
    intros l e -> Hl. destruct l as [|v0 l]; [done|].
    rewrite Hl in Hsaved. congruence.
Qed.

Lemma loadedGraphNode_notified depth g s widgets_values n w existingLoras :
  comfyClass n = class_of_shim s →
  inputWidget n = Some w →
  savedLoras (loras_slot s) widgets_values = Some existingLoras →
  let mergedLoras := mergeLoras (value w) existingLoras in
  let assigned := log (Assigned (WriteLoras mergedLoras))
                      (store (WriteLoras mergedLoras) n) in
  host (WriteLoras mergedLoras) assigned = [CallLoras mergedLoras] →
  loadedGraphNode (notify (S depth) g) s widgets_values n
  = Some (lorasCallback g s mergedLoras assigned).
Proof.
  intros Hc Hw Hsaved mergedLoras assigned Hhost.
  assert (Hs : shim_of_class (comfyClass assigned) = Some s)
    by (simpl; rewrite Hc; by destruct s).
  unfold loadedGraphNode. rewrite Hc, String.eqb_refl, Hsaved, Hw.
  unfold assign. fold mergedLoras. fold assigned.
  change (notify (S depth) g (WriteLoras mergedLoras) assigned)
    with (foldl (fun n c => handle g (notify depth g) c n) assigned
            (host (WriteLoras mergedLoras) assigned)).
  rewrite Hhost. cbn [foldl handle]. by rewrite Hs.
Qed.

(** X9. The assignment of [loadedGraphNode] is made with the guard clear.
    When the host answers it with the list change, the list-change closure
    of the node runs in full on the node as the assignment left it: the
    names are given to the trigger-word nodes and a rewrite of the text with
    the restored entries is pending. *)
Theorem loadedGraphNode_notifies depth g s widgets_values n w existingLoras :
  comfyClass n = class_of_shim s →
  inputWidget n = Some w →
  savedLoras (loras_slot s) widgets_values = Some existingLoras →
  isUpdating n = false →
  let mergedLoras := mergeLoras (value w) existingLoras in
  let assigned := log (Assigned (WriteLoras mergedLoras))
                      (store (WriteLoras mergedLoras) n) in
  host (WriteLoras mergedLoras) assigned = [CallLoras mergedLoras] →
  ∃ n',
    loadedGraphNode (notify (S depth) g) s widgets_values n = Some n'
    ∧ n' = lorasCallback g s mergedLoras assigned
    ∧ timer n' = Some mergedLoras
    ∧ lorasValue n' = Some mergedLoras
    ∧ ∃ names tail,
        trace n' = trace n ++ Assigned (WriteLoras mergedLoras)
                           :: UpdateConnectedTriggerWords names :: tail.
Proof.
  intros Hc Hw Hsaved Hu mergedLoras assigned Hhost.
  assert (Hrun : loadedGraphNode (notify (S depth) g) s widgets_values n
                 = Some (lorasCallback g s mergedLoras assigned))
    by by apply loadedGraphNode_notified.
  exists (lorasCallback g s mergedLoras assigned).
  split; [exact Hrun|]. split; [done|].
  destruct s; unfold_closures; simpl; rewrite Hu; simpl;
    (split_and!; [done | done |]); rewrite <- ?app_assoc; simpl;
    by eexists _, _.
Qed.

(** X11. After a restore that the host answers with the list change, the
    firing of the pending rewrite leaves the text at the encoding of the
    text of the node with the restored entries, with at most one assignment
    of the text widget, and nothing is pending any more. *)
Theorem restore_then_rewrite depth g s widgets_values n w existingLoras :
  comfyClass n = class_of_shim s →
  inputWidget n = Some w →
  savedLoras (loras_slot s) widgets_values = Some existingLoras →
  isUpdating n = false →
  isSyncingInput n = false →
  let mergedLoras := mergeLoras (value w) existingLoras in
  let assigned := log (Assigned (WriteLoras mergedLoras))
                      (store (WriteLoras mergedLoras) n) in
  host (WriteLoras mergedLoras) assigned = [CallLoras mergedLoras] →
  ∃ n',
    loadedGraphNode (notify (S depth) g) s widgets_values n = Some n'
    ∧ let n2 := fireInputSync (notify (S depth) g) n' in
      inputValue n2 = Some (applyLoraValuesToText (value w) mergedLoras)
      ∧ timer n2 = None
      ∧ count_input_writes (trace n2) ≤ count_input_writes (trace n) + 1.
Proof.
  intros Hc Hw Hsaved Hu Hs mergedLoras assigned Hhost.
  exists (lorasCallback g s mergedLoras assigned).
  split; [by apply loadedGraphNode_notified|].
  set (n' := lorasCallback g s mergedLoras assigned).
  assert (Hn' : timer n' = Some mergedLoras ∧ isSyncingInput n' = false
                ∧ inputWidget n' = Some w
                ∧ count_input_writes (trace n') = count_input_writes (trace n)).
  { subst n'. destruct s; unfold_closures; simpl; rewrite Hu; simpl;
      (split_and!; [done | done | done |]);
      rewrite <- ?app_assoc; unfold count_input_writes;
      rewrite List.filter_app, length_app; simpl; lia. }
  destruct Hn' as (Ht & Hs' & Hw' & Hcount).
  assert (Hv' : inputValue n' = value w) by (unfold inputValue; by rewrite Hw').
  unfold fireInputSync. rewrite Ht.
  rewrite inputSync_run by done.
  change (inputValue (set_timer None n')) with (inputValue n').
  rewrite Hv'. cbv zeta.
  destruct (decide _) as [e|ne].
  - split_and!; [| done |].
    + change (inputValue n' = Some (applyLoraValuesToText (value w) mergedLoras)).
      by rewrite Hv'.
    + change (count_input_writes (trace n') ≤ count_input_writes (trace n) + 1).
      lia.
  - change (inputWidget (set_timer None n')) with (inputWidget n').
    rewrite Hw'.
    split_and!; [unfold inputValue; simpl; by rewrite Hw' | done |].
    simpl. rewrite count_input_writes_snoc. lia.
Qed.

(** X12. The texts after a broadcast.  Every loader node that
    [getAllGraphNodes] lists and that has a text widget ends with: the
    payload, in mode "replace" or when its text was blank; otherwise its
    text trimmed, one space and the payload. *)
Theorem broadcast_texts depth g m i node w :
  numericNodeId m = Some (-1)%Z →
  NoDup (getAllGraphNodes g) →
  i ∈ getAllGraphNodes g →
  g !! i = Some node →
  comfyClass node = LORA_LOADER →
  inputWidget node = Some w →
  let loraCode := default [] (message.lora_code m) in
  let currentValue := default [] (value w) in
  ∃ node1,
    handleLoraCodeUpdate depth g m !! i = Some node1
    ∧ (message.mode m = Some (js "replace") → inputValue node1 = Some loraCode)
    ∧ (message.mode m ≠ Some (js "replace") →
       Forall (λ c, isWhiteSpace c = true) currentValue →
       inputValue node1 = Some loraCode)
    ∧ (message.mode m ≠ Some (js "replace") →
       Exists (λ c, isWhiteSpace c = false) currentValue →
       inputValue node1 = Some (trim currentValue ++ [32%N] ++ loraCode)).
Proof.
  intros Hid Hnd Hi Hnode Hclass Hw loraCode currentValue.
  unfold handleLoraCodeUpdate. destruct (decide _) as [_|]; [|done].
  fold loraCode. pose proof (default_mode_append (message.mode m)) as Hmode.
  remember (default (js "append") (message.mode m)) as mode0 eqn:Hmode0.
  assert (Hnd' : NoDup (List.filter (isLoraLoader g) (getAllGraphNodes g)))
    by by apply NoDup_ListNoDup, List.NoDup_filter, NoDup_ListNoDup.
  destruct (forEach_updateAt depth loraCode mode0 _ Hnd' g i) as [Hin _].
  destruct (Hin) with (node := node) as [g' Hg']; [|done|].
  { apply list_elem_of_In, List.filter_In. split; [by apply list_elem_of_In|].
    apply isLoraLoader_true. eauto. }
  eexists. split; [exact Hg'|].
  rewrite (proj2 (updateNodeLoraCode_run depth g' node w loraCode mode0 Hw)).
  fold currentValue. unfold nextLoraCode.
  destruct (decide (mode0 = js "replace")) as [e|ne].
  - split_and!; [done | |]; intros Hm; by destruct (Hmode Hm).
  - split_and!.
    + intros Hm. destruct ne. by rewrite Hmode0, Hm.
    + intros _ Hb. by rewrite (trim_blank _ Hb).
    + intros _ He. by rewrite (trim_nonblank _ He).
Qed.

End Shims.

(** ** The merge of the specification *)

Lemma merge_lookup_current incoming current k c :
  current !! k = Some c →
  merge incoming current !! k
  = Some match find_entry (name c) incoming with
         | Some i => mkLora (name c) (strength i) (active c)
         | None => c
         end.
Proof.
  intros H. unfold merge. rewrite lookup_app_l.
  - by rewrite list_lookup_fmap, H.
  - rewrite length_map. by eapply lookup_lt_Some.
Qed.

Lemma activeNames_from (acc : gset jsstring) (entries : list LoraEntry) (x : jsstring) :
  x ∈ foldl (fun s lora => if active lora then s ∪ {[ name lora ]} else s)
            acc entries
  ↔ x ∈ acc ∨ ∃ e, e ∈ entries ∧ active e = true ∧ name e = x.
Proof.
  revert acc. induction entries as [|e entries IH]; intros acc; simpl.
  - split; [by left|]. intros [H|(e & H & _)]; [done|]. by apply elem_of_nil in H.
  - rewrite IH. split.
    + intros [H|(e' & He' & Ha & Hn)].
      * destruct (active e) eqn:Ha; [|by left].
        apply elem_of_union in H as [H|H]; [by left|].
        apply elem_of_singleton in H. right. exists e.
        split_and!; [by left|done|done].
      * right. exists e'. split_and!; [by right|done|done].
    + intros [H|(e' & He' & Ha & Hn)].
      * left. destruct (active e); [|done]. apply elem_of_union. by left.
      * apply elem_of_cons in He' as [->|He'].
        -- left. rewrite Ha. apply elem_of_union. right.
           by apply elem_of_singleton.
        -- right. by exists e'.
Qed.

(** The names of a list are the names of its entries with [active] set. *)
Lemma activeNames_spec entries x :
  x ∈ activeNames entries ↔ ∃ e, e ∈ entries ∧ active e = true ∧ name e = x.
Proof.
  unfold activeNames. rewrite activeNames_from. split; [|by right].
  intros [H|H]; [|done]. by apply not_elem_of_empty in H.
Qed.

Lemma isNodeActive_true n :
  isNodeActive n = true ↔ mode n = None ∨ mode n = Some 0%Z ∨ mode n = Some 3%Z.
Proof.
  unfold isNodeActive. destruct (mode n) as [z|]; [|by split; [left|]].
  rewrite orb_true_iff, !Z.eqb_eq. split.
  - intros [->| ->]; [right; by left | right; by right].
  - intros [H|[[= ->]|[= ->]]]; [done | by left | by right].
Qed.

(** C1. A text change that finds [isUpdating] clear replaces the entries of
    the node by the merge of the entries decoded from the text into the
    current entries: every current entry keeps its position, its name and
    its [active] flag, and has the strength of the decoded entry of its name
    when there is one.  Then the names are computed on the node with the new
    entries and given to [updateConnectedTriggerWords] (and, on a stacker,
    the downstream loaders are updated), and [isUpdating] is clear again. *)
Theorem text_change_merges
    (decode : option jsstring → list LoraEntry)
    (collectActiveLorasFromChain : Graph → Node → gset jsstring)
    (getActiveLorasFromNode : Node → gset jsstring)
    (host : Write → Node → list Call)
    (depth : nat) (g : Graph) (s : Shim) (text : option jsstring) (n : Node) :
  isUpdating n = false →
  let mergeLoras := spec_mergeLoras decode in
  let current := default [] (lorasValue n) in
  let merged := merge (decode text) current in
  let n' := inputCallback mergeLoras collectActiveLorasFromChain
              getActiveLorasFromNode g
              (notify mergeLoras collectActiveLorasFromChain
                 getActiveLorasFromNode host depth g) s text n in
  lorasValue n' = Some merged
  ∧ (∀ k c, current !! k = Some c →
       ∃ e, merged !! k = Some e ∧ name e = name c ∧ active e = active c
            ∧ ∀ i, find_entry (name c) (decode text) = Some i →
                   strength e = strength i)
  ∧ (∃ m, lorasValue m = Some merged
          ∧ trace n' =
              trace n ++ [Assigned (WriteLoras merged);
                          UpdateConnectedTriggerWords
                            match s with
                            | LoaderShim => collectActiveLorasFromChain g m
                            | StackerShim =>
                                if isNodeActive n
                                then getActiveLorasFromNode m else ∅
                            | WanVideoShim => getActiveLorasFromNode m
                            end]
                      ++ match s with
                         | StackerShim => [UpdateDownstreamLoaders]
                         | _ => []
                         end)
  ∧ isUpdating n' = false.
Proof.
  intros H mergeLoras current merged n'.
  destruct (inputCallback_run mergeLoras collectActiveLorasFromChain
              getActiveLorasFromNode host depth g s text n H)
    as (Hl & Ht & Hu & _).
  split_and!; [done| |by eexists; split; [|exact Ht]|done].
  intros k c Hk. eexists. split; [by apply merge_lookup_current|].
  destruct (find_entry (name c) (decode text)) as [i|]; simpl.
  - split_and!; [done|done|]. by intros ? [= <-].
  - by split_and!.
Qed.

(** C7. A change of the entries of a stacker, from the list or from the
    text, gives [updateConnectedTriggerWords] the empty set when the mode of
    the node is none of undefined, 0 and 3, whatever the [active] flags are;
    otherwise it gives the names of the entries with [active] set, and no
    other name. *)
Theorem stacker_contribution
    (mergeLoras : option jsstring → list LoraEntry → list LoraEntry)
    (collectActiveLorasFromChain : Graph → Node → gset jsstring)
    (host : Write → Node → list Call)
    (depth : nat) (g : Graph) (value0 : list LoraEntry)
    (text : option jsstring) (n : Node) :
  isUpdating n = false →
  let merged := mergeLoras text (default [] (lorasValue n)) in
  let n1 := stacker_lorasCallback value0 n in
  let n2 := stacker_inputCallback mergeLoras spec_getActiveLorasFromNode
              (notify mergeLoras collectActiveLorasFromChain
                 spec_getActiveLorasFromNode host depth g) text n in
  ∃ names1 names2,
    trace n1 = trace n ++ [UpdateConnectedTriggerWords names1;
                           UpdateDownstreamLoaders]
    ∧ trace n2 = trace n ++ [Assigned (WriteLoras merged);
                             UpdateConnectedTriggerWords names2;
                             UpdateDownstreamLoaders]
    ∧ lorasValue n2 = Some merged
    ∧ (mode n ≠ None ∧ mode n ≠ Some 0%Z ∧ mode n ≠ Some 3%Z →
       names1 = ∅ ∧ names2 = ∅)
    ∧ (mode n = None ∨ mode n = Some 0%Z ∨ mode n = Some 3%Z →
       (∀ x, x ∈ names1 ↔ ∃ e, e ∈ value0 ∧ active e = true ∧ name e = x)
       ∧ (∀ x, x ∈ names2 ↔ ∃ e, e ∈ merged ∧ active e = true ∧ name e = x)).
Proof.
  intros H merged n1 n2.
  exists (if isNodeActive n then activeNames value0 else ∅),
         (if isNodeActive n then activeNames merged else ∅).
  destruct (inputCallback_run mergeLoras collectActiveLorasFromChain
              spec_getActiveLorasFromNode host depth g StackerShim text n H)
    as (Hl & Ht & _).
  split_and!.
  - subst n1. unfold stacker_lorasCallback. rewrite H. simpl.
    by rewrite <- app_assoc.
  - exact Ht.
  - exact Hl.
  - intros (H1 & H2 & H3). destruct (isNodeActive n) eqn:Ha; [|done].
    apply isNodeActive_true in Ha as [?|[?|?]]; done.
  - intros Hm. apply isNodeActive_true in Hm. rewrite Hm.
    split; intros x; apply activeNames_spec.
Qed.

(** ** The route table *)

Lemma routeRequest_first table path r :
  routeRequest table path = Some r →
  ∃ before after,
    table = before ++ r :: after
    ∧ matches (pathPattern r) path = true
    ∧ Forall (λ r', matches (pathPattern r') path = false) before.
Proof.
  unfold routeRequest. induction table as [|r0 table IH]; simpl; [done|].
  destruct (matches (pathPattern r0) path) eqn:Hm.
  - intros [= <-]. by exists [], table.
  - intros (before & after & -> & Hr & Hb)%IH.
    exists (r0 :: before), after. split_and!; [done|done|by constructor].
Qed.

Lemma routeRequest_skips before r after path :
  Forall (λ r', matches (pathPattern r') path = false) before →
  matches (pathPattern r) path = true →
  routeRequest (before ++ r :: after) path = Some r.
Proof.
  unfold routeRequest. induction 1 as [|r0 before H0 _ IH]; intros Hr; simpl.
  - by rewrite Hr.
  - rewrite H0. by apply IH.
Qed.

(** C8. The table is scanned in order and the first rule that matches is
    the answer: a rule is returned exactly when it matches and no rule
    before it does.  With the rules /api/lm/loras/get_trigger_words ->
    localHandle, /api/lm/* -> forward, the path
    /api/lm/loras/get_trigger_words is handled locally and /api/lm/loras/list
    is forwarded. *)
Theorem first_match_wins :
  (∀ table path r,
     routeRequest table path = Some r ↔
     ∃ before after,
       table = before ++ r :: after
       ∧ matches (pathPattern r) path = true
       ∧ Forall (λ r', matches (pathPattern r') path = false) before)
  ∧ disposition <$> routeRequest route_table_example "/api/lm/loras/get_trigger_words"
    = Some localHandle
  ∧ disposition <$> routeRequest route_table_example "/api/lm/loras/list"
    = Some forward.
Proof.
  split_and!; [|done|done].
  intros table path r. split; [apply routeRequest_first|].
  intros (before & after & -> & Hr & Hb). by apply routeRequest_skips.
Qed.

(** ** Concrete runs *)

Lemma text_change_merges_witness :
  isUpdating sample_loader = false
  ∧ lorasValue
      (inputCallback (spec_mergeLoras decode_bar) collect_self
         spec_getActiveLorasFromNode sample_graph
         (notify (spec_mergeLoras decode_bar) collect_self
            spec_getActiveLorasFromNode echo_host 2 sample_graph)
         LoaderShim (Some (js "<lora:bar:0.8>")) sample_loader)
    = Some [mkLora (js "foo") 1 false; mkLora (js "bar") (8 # 10) true].
Proof.
  split; [reflexivity|].
  exact (proj1 (text_change_merges decode_bar collect_self
                  spec_getActiveLorasFromNode echo_host 2 sample_graph
                  LoaderShim (Some (js "<lora:bar:0.8>")) sample_loader eq_refl)).
Defined.

Lemma list_change_writes_text_at_most_once_witness :
  count_input_writes
    (trace (fireInputSync encode_names
              (notify (spec_mergeLoras decode_bar) collect_self
                 spec_getActiveLorasFromNode echo_host 3 sample_graph)
              (lorasCallback collect_self sample_graph StackerShim
                 sample_entries sample_stacker)))
  ≤ count_input_writes (trace sample_stacker) + 1.
Proof.
  exact (proj1 (list_change_writes_text_at_most_once
                  (spec_mergeLoras decode_bar) collect_self
                  spec_getActiveLorasFromNode encode_names echo_host 3
                  sample_graph StackerShim sample_entries sample_stacker)).
Defined.

Lemma guarded_call_is_dropped_witness :
  isUpdating sample_busy = true
  ∧ inputCallback (spec_mergeLoras decode_bar) collect_self
      spec_getActiveLorasFromNode sample_graph
      (notify (spec_mergeLoras decode_bar) collect_self
         spec_getActiveLorasFromNode echo_host 2 sample_graph)
      LoaderShim (Some (js "<lora:bar:0.8>")) sample_busy = sample_busy
  ∧ lorasCallback collect_self sample_graph LoaderShim [] sample_busy
    = sample_busy.
Proof.
  split; [reflexivity|].
  exact (guarded_call_is_dropped (spec_mergeLoras decode_bar) collect_self
           spec_getActiveLorasFromNode echo_host 2 sample_graph LoaderShim
           (Some (js "<lora:bar:0.8>")) [] sample_busy eq_refl).
Defined.

Lemma updateNodeLoraCode_foo_bar_witness :
  inputWidget sample_stacker = Some (mkInput (Some (js "foo")) (Some StackerShim))
  ∧ inputValue
      (updateNodeLoraCode (spec_mergeLoras decode_bar) collect_self
         spec_getActiveLorasFromNode sample_graph
         (notify (spec_mergeLoras decode_bar) collect_self
            spec_getActiveLorasFromNode echo_host 2 sample_graph)
         sample_stacker (js "<lora:bar:0.8>") (js "append"))
    = Some (js "foo <lora:bar:0.8>").
Proof.
  split; [reflexivity|].
  exact (proj1 (updateNodeLoraCode_foo_bar (spec_mergeLoras decode_bar)
                  collect_self spec_getActiveLorasFromNode echo_host 2
                  sample_graph sample_stacker _ eq_refl eq_refl)).
Defined.

Lemma handleLoraCodeUpdate_reaches_witness :
  numericNodeId Number_decimal broadcast_message = Some (-1)%Z
  ∧ NoDup (all_positions sample_graph)
  ∧ handleLoraCodeUpdate (spec_mergeLoras decode_bar) collect_self
      spec_getActiveLorasFromNode all_positions node_at_id Number_decimal
      echo_host 2 sample_graph broadcast_message !! 2
    = Some sample_other
  ∧ handleLoraCodeUpdate (spec_mergeLoras decode_bar) collect_self
      spec_getActiveLorasFromNode all_positions node_at_id Number_decimal
      echo_host 2 sample_graph (targeted_message 1) !! 1
    = Some (updateNodeLoraCode (spec_mergeLoras decode_bar) collect_self
              spec_getActiveLorasFromNode sample_graph
              (notify (spec_mergeLoras decode_bar) collect_self
                 spec_getActiveLorasFromNode echo_host 2 sample_graph)
              sample_stacker (js "<lora:bar:0.8>") (js "replace")).
Proof.
  pose proof (handleLoraCodeUpdate_reaches (spec_mergeLoras decode_bar)
                collect_self spec_getActiveLorasFromNode all_positions
                node_at_id Number_decimal echo_host 2 sample_graph
                broadcast_message) as Hb.
  pose proof (handleLoraCodeUpdate_reaches (spec_mergeLoras decode_bar)
                collect_self spec_getActiveLorasFromNode all_positions
                node_at_id Number_decimal echo_host 2 sample_graph
                (targeted_message 1)) as Ht.
  cbv zeta in Hb, Ht.
  destruct Hb as (_ & Hstr & Hall & _). destruct Ht as (_ & _ & _ & Hone).
  assert (Hid : numericNodeId Number_decimal broadcast_message = Some (-1)%Z)
    by (apply (Hstr (js "-1")); reflexivity).
  assert (Hnd : NoDup (all_positions sample_graph)) by apply NoDup_seq.
  split_and!; [exact Hid | exact Hnd | |].
  - apply (Hall Hid Hnd 2). right. intros node [= <-]. discriminate.
  - apply (Hone ltac:(discriminate) 1 sample_stacker); reflexivity.
Defined.

(** At node id -1 the stacker of the graph is not reached: it is as it was,
    and an update would have changed its text. *)
Lemma broadcast_skips_stacker :
  numericNodeId Number_decimal broadcast_message = Some (-1)%Z
  ∧ sample_graph !! 1 = Some sample_stacker
  ∧ handleLoraCodeUpdate (spec_mergeLoras decode_bar) collect_self
      spec_getActiveLorasFromNode all_positions node_at_id Number_decimal
      echo_host 2 sample_graph broadcast_message !! 1
    = Some sample_stacker
  ∧ ¬ ∃ g',
        handleLoraCodeUpdate (spec_mergeLoras decode_bar) collect_self
          spec_getActiveLorasFromNode all_positions node_at_id Number_decimal
          echo_host 2 sample_graph broadcast_message !! 1
        = Some (updateNodeLoraCode (spec_mergeLoras decode_bar) collect_self
                  spec_getActiveLorasFromNode g'
                  (notify (spec_mergeLoras decode_bar) collect_self
                     spec_getActiveLorasFromNode echo_host 2 g')
                  sample_stacker (js "<lora:bar:0.8>") (js "append")).
Proof.
  assert (Hsame : handleLoraCodeUpdate (spec_mergeLoras decode_bar) collect_self
      spec_getActiveLorasFromNode all_positions node_at_id Number_decimal
      echo_host 2 sample_graph broadcast_message !! 1
    = Some sample_stacker) by (vm_compute; reflexivity).
  split_and!; [reflexivity | reflexivity | exact Hsame |].
  intros [g' Hg']. rewrite Hsame in Hg'.
  apply (f_equal (λ o : option Node, o ≫= inputValue)) in Hg'.
  cbn [mbind option_bind] in Hg'.
  rewrite (proj2 (updateNodeLoraCode_run (spec_mergeLoras decode_bar)
                    collect_self spec_getActiveLorasFromNode echo_host 2 g'
                    sample_stacker _ (js "<lora:bar:0.8>") (js "append")
                    eq_refl)) in Hg'.
  vm_compute in Hg'. discriminate.
Qed.

Lemma inputSync_writes_only_a_change_witness :
  (isSyncingInput sample_syncing = true
   ∧ inputSync encode_names
       (notify (spec_mergeLoras decode_bar) collect_self
          spec_getActiveLorasFromNode echo_host 2 sample_graph)
       sample_entries sample_syncing = sample_syncing)
  ∧ (isSyncingInput sample_synced = false
     ∧ inputValue sample_synced
       = Some (encode_names (inputValue sample_synced) sample_entries)
     ∧ trace (inputSync encode_names
                (notify (spec_mergeLoras decode_bar) collect_self
                   spec_getActiveLorasFromNode echo_host 2 sample_graph)
                sample_entries sample_synced) = [])
  ∧ (isSyncingInput sample_loader = false
     ∧ inputValue sample_loader
       ≠ Some (encode_names (inputValue sample_loader) sample_entries)
     ∧ trace (inputSync encode_names
                (notify (spec_mergeLoras decode_bar) collect_self
                   spec_getActiveLorasFromNode echo_host 2 sample_graph)
                sample_entries sample_loader)
       = [Assigned (WriteInput (js "<lora:foo><lora:bar>"))]).
Proof.
  pose proof (inputSync_writes_only_a_change (spec_mergeLoras decode_bar)
                collect_self spec_getActiveLorasFromNode encode_names
                echo_host 2 sample_graph sample_entries) as H.
  assert (Hne : inputValue sample_loader
                ≠ Some (encode_names (inputValue sample_loader) sample_entries))
    by (vm_compute; discriminate).
  split_and!.
  - reflexivity.
  - exact (proj1 (H sample_syncing) eq_refl).
  - reflexivity.
  - reflexivity.
  - exact (proj1 (proj1 (proj2 (H sample_synced)) eq_refl eq_refl)).
  - reflexivity.
  - exact Hne.
  - exact (proj1 (proj1 (proj2 (proj2 (H sample_loader))) eq_refl
                    (ex_intro _ _ eq_refl) Hne)).
Defined.

Lemma stacker_contribution_witness :
  isUpdating sample_bypassed = false
  ∧ mode sample_bypassed = Some 4%Z
  ∧ trace (stacker_lorasCallback sample_entries sample_bypassed)
    = [UpdateConnectedTriggerWords ∅; UpdateDownstreamLoaders]
  ∧ isUpdating sample_stacker = false
  ∧ mode sample_stacker = None
  ∧ trace (stacker_lorasCallback sample_entries sample_stacker)
    = [UpdateConnectedTriggerWords {[ js "bar" ]}; UpdateDownstreamLoaders].
Proof.
  destruct (stacker_contribution (spec_mergeLoras decode_bar) collect_self
              echo_host 2 sample_graph sample_entries
              (Some (js "<lora:bar:0.8>")) sample_bypassed eq_refl)
    as (b1 & b2 & Hb1 & _ & _ & Hoff & _).
  destruct (stacker_contribution (spec_mergeLoras decode_bar) collect_self
              echo_host 2 sample_graph sample_entries
              (Some (js "<lora:bar:0.8>")) sample_stacker eq_refl)
    as (a1 & a2 & Ha1 & _ & _ & _ & Hon).
  split_and!; [reflexivity | reflexivity | | reflexivity | reflexivity |].
  - rewrite Hb1.
    destruct Hoff as [-> _]; [by split_and!|]. reflexivity.
  - rewrite Ha1. simpl. do 2 f_equal.
    destruct (Hon (or_introl eq_refl)) as [Hn _].
    apply set_eq. intros x. rewrite Hn, elem_of_singleton. split.
    + intros (e & He & Ha & <-).
      apply elem_of_cons in He as [->|He]; [discriminate|].
      apply elem_of_cons in He as [->|He]; [reflexivity|].
      by apply elem_of_nil in He.
    + intros ->. exists (mkLora (js "bar") (1 # 2) true).
      split_and!; [|reflexivity|reflexivity].
      apply elem_of_cons. right. apply elem_of_cons. by left.
Defined.

Lemma first_match_wins_witness :
  matches "/api/lm/*" "/api/lm/loras/list" = true
  ∧ matches "/api/lm/loras/get_trigger_words" "/api/lm/loras/list" = false
  ∧ routeRequest route_table_example "/api/lm/loras/list"
    = Some (mkRule "/api/lm/*" forward None).
Proof.
  split_and!; [reflexivity | reflexivity |].
  apply (proj1 first_match_wins).
  exists [mkRule "/api/lm/loras/get_trigger_words" localHandle
            (Some "trigger_word_update")], [].
  split_and!; [reflexivity | reflexivity |].
  constructor; [reflexivity | constructor].
Defined.

Lemma updateNodeLoraCode_append_witness :
  (inputWidget sample_blank = Some (mkInput (Some (js "  ")) (Some LoaderShim))
   ∧ inputValue
       (updateNodeLoraCode (spec_mergeLoras decode_bar) collect_self
          spec_getActiveLorasFromNode sample_graph
          (notify (spec_mergeLoras decode_bar) collect_self
             spec_getActiveLorasFromNode echo_host 2 sample_graph)
          sample_blank (js "<lora:bar:0.8>") (js "append"))
     = Some (js "<lora:bar:0.8>"))
  ∧ (inputWidget sample_padded
     = Some (mkInput (Some (js " foo  ")) (Some LoaderShim))
     ∧ inputValue
         (updateNodeLoraCode (spec_mergeLoras decode_bar) collect_self
            spec_getActiveLorasFromNode sample_graph
            (notify (spec_mergeLoras decode_bar) collect_self
               spec_getActiveLorasFromNode echo_host 2 sample_graph)
            sample_padded (js "<lora:bar:0.8>") (js "append"))
       = Some (js "foo <lora:bar:0.8>")).
Proof.
  split; (split; [reflexivity|]).
  - apply (proj1 (updateNodeLoraCode_append (spec_mergeLoras decode_bar)
                    collect_self spec_getActiveLorasFromNode echo_host 2
                    sample_graph sample_blank _ (js "<lora:bar:0.8>")
                    (js "append") eq_refl)).
    + discriminate.
    + repeat constructor.
  - apply (proj1 (proj1 (proj2 (updateNodeLoraCode_append
                    (spec_mergeLoras decode_bar)
                    collect_self spec_getActiveLorasFromNode echo_host 2
                    sample_graph sample_padded _ (js "<lora:bar:0.8>")
                    (js "append") eq_refl)) ltac:(discriminate)
                    ltac:(apply Exists_cons_tl, Exists_cons_hd; reflexivity))).
Defined.

Lemma handleLoraCodeUpdate_ignores_witness :
  numericNodeId Number_decimal (targeted_message 2) ≠ Some (-1)%Z
  ∧ node_at_id sample_graph None (Some 2%Z) = Some 2
  ∧ sample_graph !! 2 = Some sample_other
  ∧ handleLoraCodeUpdate (spec_mergeLoras decode_bar) collect_self
      spec_getActiveLorasFromNode all_positions node_at_id Number_decimal
      echo_host 2 sample_graph (targeted_message 2)
    = sample_graph.
Proof.
  split_and!; [discriminate | reflexivity | reflexivity |].
  apply handleLoraCodeUpdate_ignores; [discriminate|].
  right. exists 2, sample_other. split_and!; [reflexivity | reflexivity |].
  left. split_and!; discriminate.
Defined.

(** ** The WanVideo node and the mode *)

(** X10. The WanVideo shim does not look at the mode of the node.  In
    whatever mode the node is put, a list change gives the trigger-word
    nodes the names of the entries with [active] set, and no other name,
    and schedules the rewrite; a text change gives them what
    [getActiveLorasFromNode] finds on the node with the merged entries. *)
Theorem wanvideo_ignores_mode
    (mergeLoras : option jsstring → list LoraEntry → list LoraEntry)
    (collectActiveLorasFromChain : Graph → Node → gset jsstring)
    (getActiveLorasFromNode : Node → gset jsstring)
    (host : Write → Node → list Call)
    (depth : nat) (g : Graph) (value0 : list LoraEntry)
    (text : option jsstring) (v : option Z) (n : Node) :
  isUpdating n = false →
  let n0 := set_mode v n in
  let merged := mergeLoras text (default [] (lorasValue n)) in
  trace (wanvideo_lorasCallback value0 n0)
  = trace n ++ [UpdateConnectedTriggerWords (activeNames value0)]
  ∧ (∀ x, x ∈ activeNames value0 ↔
          ∃ e, e ∈ value0 ∧ active e = true ∧ name e = x)
  ∧ timer (wanvideo_lorasCallback value0 n0) = Some value0
  ∧ ∃ m, lorasValue m = Some merged ∧ mode m = v
         ∧ trace (wanvideo_inputCallback mergeLoras getActiveLorasFromNode
                    (notify mergeLoras collectActiveLorasFromChain
                       getActiveLorasFromNode host depth g) text n0)
           = trace n ++ [Assigned (WriteLoras merged);
                         UpdateConnectedTriggerWords (getActiveLorasFromNode m)].
Proof.
  intros H n0 merged.
  assert (H0 : isUpdating n0 = false) by done.
  split_and!.
  - unfold wanvideo_lorasCallback. by rewrite H0.
  - apply activeNames_spec.
  - unfold wanvideo_lorasCallback. by rewrite H0.
  - destruct (inputCallback_run mergeLoras collectActiveLorasFromChain
                getActiveLorasFromNode host depth g WanVideoShim text n0 H0)
      as (_ & Ht & _).
    exists (afterMerge mergeLoras text n0). split_and!; [done | done |].
    etrans; [exact Ht|]. by rewrite app_nil_r.
Qed.

(** ** More concrete runs *)

Lemma closures_keep_idle_witness :
  idle sample_loader
  ∧ idle (updateNodeLoraCode (spec_mergeLoras decode_bar) collect_self
            spec_getActiveLorasFromNode sample_graph
            (notify (spec_mergeLoras decode_bar) collect_self
               spec_getActiveLorasFromNode echo_host 2 sample_graph)
            sample_loader (js "<lora:bar:0.8>") (js "append")).
Proof.
  assert (H : idle sample_loader) by (split; reflexivity).
  split; [exact H|].
  exact (proj1 (proj2 (proj2 (proj2
           (closures_keep_idle (spec_mergeLoras decode_bar) collect_self
              spec_getActiveLorasFromNode encode_names echo_host 2
              sample_graph LoaderShim None [] (js "<lora:bar:0.8>")
              (js "append") None None sample_loader H))))).
Defined.

Lemma handleLoraCodeUpdate_frame_witness :
  length (handleLoraCodeUpdate (spec_mergeLoras decode_bar) collect_self
            spec_getActiveLorasFromNode all_positions node_at_id
            Number_decimal echo_host 2 sample_graph broadcast_message)
  = 4.
Proof.
  exact (proj1 (handleLoraCodeUpdate_frame (spec_mergeLoras decode_bar)
                  collect_self spec_getActiveLorasFromNode all_positions
                  node_at_id Number_decimal echo_host 2 sample_graph
                  broadcast_message)).
Defined.

Lemma handleLoraCodeUpdate_reads_witness :
  handleLoraCodeUpdate (spec_mergeLoras decode_bar) collect_self
    spec_getActiveLorasFromNode all_positions node_at_id Number_decimal
    echo_host 2 sample_graph sample_message
  = handleLoraCodeUpdate (spec_mergeLoras decode_bar) collect_self
      spec_getActiveLorasFromNode all_positions node_at_id Number_decimal
      echo_host 2 sample_graph
      (message.mk (Some (IdString (js "1"))) (Some (IdNumber 0)) None
         (Some (js "<lora:bar:0.8>")) None).
Proof.
  apply (proj1 (handleLoraCodeUpdate_reads (spec_mergeLoras decode_bar)
                  collect_self spec_getActiveLorasFromNode all_positions
                  node_at_id Number_decimal echo_host 2 sample_graph
                  (Some (IdString (js "1"))) (Some (IdNumber 0)) None
                  (Some (js "<lora:bar:0.8>")) (Some (js "prepend"))));
    discriminate.
Defined.

Lemma updates_in_sequence_witness :
  inputWidget sample_padded = Some (mkInput (Some (js " foo  ")) (Some LoaderShim))
  ∧ inputValue
      (updateNodeLoraCode (spec_mergeLoras decode_bar) collect_self
         spec_getActiveLorasFromNode sample_graph
         (notify (spec_mergeLoras decode_bar) collect_self
            spec_getActiveLorasFromNode echo_host 2 sample_graph)
         (updateNodeLoraCode (spec_mergeLoras decode_bar) collect_self
            spec_getActiveLorasFromNode sample_graph
            (notify (spec_mergeLoras decode_bar) collect_self
               spec_getActiveLorasFromNode echo_host 2 sample_graph)
            sample_padded (js "<lora:bar:0.8>") (js "append"))
         (js "<lora:baz:1>") (js "append"))
    = Some (js "foo <lora:bar:0.8> <lora:baz:1>").
Proof.
  split; [reflexivity|].
  apply (proj2 (updates_in_sequence (spec_mergeLoras decode_bar) collect_self
                  spec_getActiveLorasFromNode echo_host 2 sample_graph
                  sample_graph sample_padded _ (js "<lora:bar:0.8>")
                  (js "<lora:baz:1>") (js "append") eq_refl)
           (js "append") (js "<lora:bar:0.8") 62%N).
  - discriminate.
  - discriminate.
  - apply Exists_cons_tl, Exists_cons_hd. reflexivity.
  - reflexivity.
  - reflexivity.
Defined.

Lemma rewrite_settles_witness :
  inputWidget sample_loader = Some (mkInput (Some (js "foo")) (Some LoaderShim))
  ∧ isSyncingInput sample_loader = false
  ∧ encode_names (Some (encode_names (inputValue sample_loader) sample_entries))
      sample_entries
    = encode_names (inputValue sample_loader) sample_entries
  ∧ inputValue
      (inputSync encode_names
         (notify (spec_mergeLoras decode_bar) collect_self
            spec_getActiveLorasFromNode echo_host 2 sample_graph)
         sample_entries sample_loader)
    = Some (js "<lora:foo><lora:bar>").
Proof.
  split_and!; [reflexivity | reflexivity | reflexivity |].
  exact (proj1 (rewrite_settles (spec_mergeLoras decode_bar) collect_self
                  spec_getActiveLorasFromNode encode_names echo_host 2
                  sample_graph sample_entries sample_loader _
                  eq_refl eq_refl eq_refl)).
Defined.

Lemma loadedGraphNode_own_class_witness :
  comfyClass sample_stacker = class_of_shim StackerShim
  ∧ LoaderShim ≠ StackerShim
  ∧ loadedGraphNode (spec_mergeLoras decode_bar)
      (notify (spec_mergeLoras decode_bar) collect_self
         spec_getActiveLorasFromNode echo_host 2 sample_graph)
      LoaderShim sample_saved sample_stacker
    = Some sample_stacker.
Proof.
  split_and!; [reflexivity | discriminate |].
  apply (proj1 (loadedGraphNode_own_class (spec_mergeLoras decode_bar)
                  collect_self spec_getActiveLorasFromNode echo_host 2
                  sample_graph StackerShim LoaderShim None sample_saved
                  sample_stacker eq_refl ltac:(discriminate))).
Defined.

Lemma loadedGraphNode_restores_witness :
  comfyClass sample_loader = class_of_shim LoaderShim
  ∧ inputWidget sample_loader = Some (mkInput (Some (js "foo")) (Some LoaderShim))
  ∧ savedLoras (loras_slot LoaderShim) sample_saved
    = Some [mkLora (js "baz") 1 false]
  ∧ ∃ n' rest,
      loadedGraphNode (spec_mergeLoras decode_bar)
        (notify (spec_mergeLoras decode_bar) collect_self
           spec_getActiveLorasFromNode echo_host 2 sample_graph)
        LoaderShim sample_saved sample_loader = Some n'
      ∧ trace n' = Assigned (WriteLoras [mkLora (js "baz") 1 false]) :: rest
      ∧ count_input_writes rest = 0
      ∧ inputWidget n' = inputWidget sample_loader.
Proof.
  split_and!; [reflexivity | reflexivity | reflexivity |].
  exact (proj1 (loadedGraphNode_restores (spec_mergeLoras decode_bar)
                  collect_self spec_getActiveLorasFromNode echo_host 2
                  sample_graph LoaderShim sample_saved sample_loader _ _
                  eq_refl eq_refl eq_refl)).
Defined.

Lemma loadedGraphNode_notifies_witness :
  comfyClass sample_stacker = class_of_shim StackerShim
  ∧ isUpdating sample_stacker = false
  ∧ ∃ n',
      loadedGraphNode (spec_mergeLoras decode_bar)
        (notify (spec_mergeLoras decode_bar) collect_self
           spec_getActiveLorasFromNode list_host 1 sample_graph)
        StackerShim sample_saved sample_stacker = Some n'
      ∧ timer n' = Some [mkLora (js "baz") 1 false].
Proof.
  split_and!; [reflexivity | reflexivity |].
  destruct (loadedGraphNode_notifies (spec_mergeLoras decode_bar)
              collect_self spec_getActiveLorasFromNode list_host 0
              sample_graph StackerShim sample_saved sample_stacker _ _
              eq_refl eq_refl eq_refl eq_refl eq_refl)
    as (n' & Hrun & _ & Ht & _).
  exists n'. split; [exact Hrun | exact Ht].
Defined.

Lemma wanvideo_ignores_mode_witness :
  isUpdating sample_wanvideo = false
  ∧ mode (set_mode (Some 4%Z) sample_wanvideo) = Some 4%Z
  ∧ trace (wanvideo_lorasCallback sample_entries
             (set_mode (Some 4%Z) sample_wanvideo))
    = [UpdateConnectedTriggerWords (activeNames sample_entries)].
Proof.
  split_and!; [reflexivity | reflexivity |].
  exact (proj1 (wanvideo_ignores_mode (spec_mergeLoras decode_bar)
                  collect_self spec_getActiveLorasFromNode echo_host 2
                  sample_graph sample_entries None (Some 4%Z)
                  sample_wanvideo eq_refl)).
Defined.

Lemma restore_then_rewrite_witness :
  comfyClass sample_stacker = class_of_shim StackerShim
  ∧ isUpdating sample_stacker = false
  ∧ isSyncingInput sample_stacker = false
  ∧ ∃ n',
      loadedGraphNode (spec_mergeLoras decode_bar)
        (notify (spec_mergeLoras decode_bar) collect_self
           spec_getActiveLorasFromNode list_host 1 sample_graph)
        StackerShim sample_saved sample_stacker = Some n'
      ∧ inputValue
          (fireInputSync encode_names
             (notify (spec_mergeLoras decode_bar) collect_self
                spec_getActiveLorasFromNode list_host 1 sample_graph) n')
        = Some (js "<lora:baz>").
Proof.
  split_and!; [reflexivity | reflexivity | reflexivity |].
  destruct (restore_then_rewrite (spec_mergeLoras decode_bar)
              collect_self spec_getActiveLorasFromNode encode_names list_host
              0 sample_graph StackerShim sample_saved sample_stacker _ _
              eq_refl eq_refl eq_refl eq_refl eq_refl eq_refl)
    as (n' & Hrun & Hv & _).
  exists n'. split; [exact Hrun | exact Hv].
Defined.

Lemma broadcast_texts_witness :
  numericNodeId Number_decimal broadcast_message = Some (-1)%Z
  ∧ NoDup (all_positions sample_graph)
  ∧ 3 ∈ all_positions sample_graph
  ∧ sample_graph !! 3 = Some sample_loader
  ∧ ∃ node1,
      handleLoraCodeUpdate (spec_mergeLoras decode_bar) collect_self
        spec_getActiveLorasFromNode all_positions node_at_id Number_decimal
        echo_host 2 sample_graph broadcast_message !! 3 = Some node1
      ∧ inputValue node1 = Some (js "foo <lora:bar:0.8>").
Proof.
  assert (Hnd : NoDup (all_positions sample_graph)) by apply NoDup_seq.
  assert (Hin : 3 ∈ all_positions sample_graph)
    by (apply list_elem_of_In; simpl; tauto).
  split_and!; [reflexivity | exact Hnd | exact Hin | reflexivity |].
  destruct (broadcast_texts (spec_mergeLoras decode_bar) collect_self
              spec_getActiveLorasFromNode all_positions node_at_id
              Number_decimal echo_host 2 sample_graph broadcast_message 3
              sample_loader _ eq_refl Hnd Hin eq_refl eq_refl eq_refl)
    as (node1 & Hrun & _ & _ & Happ).
  exists node1. split; [exact Hrun|].
  apply Happ; [discriminate|].
  apply Exists_cons_hd. reflexivity.
Defined.
